(** * RasPi-NDI-HDMI: the capture control loop of [src/src/main.cpp]

    A shallow embedding of the parameter resolver ([_getValue]), the signal
    bridge ([default_signal_handler], [get_key_or_signal]) and the capture
    orchestrator ([event_loop]) of the NDI streamer, with the properties of
    its specification stated and settled against it.

    Conventions.
    - C++ [int] and [unsigned int] values are [Z]; where the program can
      wrap ([count++] on an [unsigned int]) the reduction modulo [2^32] is
      written out.
    - Time points and durations of [std::chrono] are [Z] counts of clock
      ticks (nanoseconds); the 64-bit tick counter does not overflow within
      the life of the device and is left unbounded.
    - Calls into the camera framework, the output sink and the logger are
      recorded, in program order, in a trace of [Action]s.
    - What the environment decides (which message [Wait] returns, which
      signals arrive, what [poll]/[getline] see on standard input, what the
      clock reads, whether [EncodeBuffer] accepts) is the input of the
      model: a list of [Event]s, one per call of [Wait]. *)

From Stdlib Require Import ZArith Lia Bool List String Ascii SpecFloat.
From stdpp Require Import base gmap strings list fin_maps.
Import ListNotations.

Local Open Scope string_scope.
Local Open Scope Z_scope.

(* ===================================================================== *)
(** ** The configuration store (libconfig) *)
(* ===================================================================== *)

Module Libconfig.

(** A scalar setting of a libconfig file, tagged with its libconfig type.
    Floating-point settings are IEEE doubles. *)
Inductive Setting :=
| TypeInt (v : Z)
| TypeInt64 (v : Z)
| TypeFloat (v : spec_float)
| TypeString (v : string)
| TypeBoolean (v : bool).

(** The two exceptions of libconfig a lookup can raise.  Both derive from
    [SettingException]; neither derives from the other. *)
Inductive SettingException :=
| SettingNotFoundException (path : string)
| SettingTypeException (path : string).

(** A computation that returns or throws. *)
Inductive Try (A : Type) :=
| Returns (a : A)
| Throws (e : SettingException).
Arguments Returns {A} a.
Arguments Throws {A} e.

Definition try_bind {A B} (m : Try A) (k : A -> Try B) : Try B :=
  match m with
  | Returns a => k a
  | Throws e => Throws e
  end.

(** [try { body } catch (libconfig::SettingNotFoundException) { handler }]:
    the handler runs for that exception class only, anything else keeps
    propagating. *)
Definition catch_not_found {A} (body : Try A) (handler : A) : Try A :=
  match body with
  | Returns a => Returns a
  | Throws (SettingNotFoundException _) => Returns handler
  | Throws (SettingTypeException p) => Throws (SettingTypeException p)
  end.

(** The global [libconfig::Config cfg], as the finite map from setting
    paths to the scalar found there. *)
Abbreviation Config := (gmap string Setting).

(** [cfg.lookup(path)]: the setting, or [SettingNotFoundException]. *)
Definition cfg_lookup (cfg : Config) (path : string) : Try Setting :=
  match cfg !! path with
  | Some s => Returns s
  | None => Throws (SettingNotFoundException path)
  end.

(** [Setting::operator int()]: [assertType(TypeInt)], automatic
    conversion between number types being off unless the program turns
    it on (this one does not). *)
Definition to_int (path : string) (s : Setting) : Try Z :=
  match s with
  | TypeInt v => Returns v
  | _ => Throws (SettingTypeException path)
  end.

(** [static_cast<float>] of a double: rounding to binary32
    (24 bits of precision, exponents below 128). *)
Definition narrow_to_float (d : spec_float) : spec_float :=
  match d with
  | S754_finite s m e => binary_normalize 24 128 (cond_Zopp s (Zpos m)) e s
  | other => other
  end.

(** [Setting::operator float()]: [assertType(TypeFloat)], then the
    narrowing cast. *)
Definition to_float (path : string) (s : Setting) : Try spec_float :=
  match s with
  | TypeFloat v => Returns (narrow_to_float v)
  | _ => Throws (SettingTypeException path)
  end.

(** [Setting::operator std::string()]: [assertType(TypeString)]. *)
Definition to_string (path : string) (s : Setting) : Try string :=
  match s with
  | TypeString v => Returns v
  | _ => Throws (SettingTypeException path)
  end.

End Libconfig.

Import Libconfig.

(* ===================================================================== *)
(** ** Parameter resolver: the four overloads of [_getValue] *)
(* ===================================================================== *)

(** A line written to [std::cerr] by the bounded overload:
    ["Invalid value for " << parameter << ": " << value]. *)
Record Diagnostic := InvalidValue { diag_parameter : string; diag_value : Z }.

(** [int _getValue(std::string parameter, int defaultValue, int min, int max)]
    (main.cpp 42-62).  The result is paired with what was written to
    [std::cerr].  The upper bound is compared with [max], the lower one with
    the literal 0; [min] is not read. *)
Definition _getValue_bounded (cfg : Config) (parameter : string)
    (defaultValue min max : Z) : Try Z * list Diagnostic :=
  match try_bind (cfg_lookup cfg parameter) (to_int parameter) with
  | Returns value =>
      if value >? max then (Returns 100, [InvalidValue parameter value])
      else if value <? 0 then (Returns 0, [InvalidValue parameter value])
      else (Returns value, [])
  | Throws (SettingNotFoundException _) => (Returns defaultValue, [])
  | Throws (SettingTypeException p) => (Throws (SettingTypeException p), [])
  end.

(** [int _getValue(std::string parameter, int defaultValue)] (64-74). *)
Definition _getValue_int (cfg : Config) (parameter : string)
    (defaultValue : Z) : Try Z :=
  catch_not_found
    (try_bind (cfg_lookup cfg parameter) (to_int parameter))
    defaultValue.

(** [float _getValue(std::string parameter, float defaultValue)] (76-86). *)
Definition _getValue_float (cfg : Config) (parameter : string)
    (defaultValue : spec_float) : Try spec_float :=
  catch_not_found
    (try_bind (cfg_lookup cfg parameter) (to_float parameter))
    defaultValue.

(** [std::string _getValue(std::string parameter, std::string defaultValue)]
    (88-98). *)
Definition _getValue_string (cfg : Config) (parameter : string)
    (defaultValue : string) : Try string :=
  catch_not_found
    (try_bind (cfg_lookup cfg parameter) (to_string parameter))
    defaultValue.

(** The right-hand side of main.cpp line 285,
    [((_getValue("brightness", 50) / 50) - 1)], as the [int] it is before
    the assignment converts it to the [float] option.  [/] on [int]
    truncates towards zero ([Z.quot]); no operand is near the [int] limits. *)
Definition brightness_option (cfg : Config) : Try Z :=
  try_bind (_getValue_int cfg "brightness" 50)
           (fun b => Returns (Z.quot b 50 - 1)).

(* ===================================================================== *)
(** ** Options, run state and the trace of calls *)
(* ===================================================================== *)

(** The fields of [options->Get()] the loop reads.  [VideoOptions] comes
    from the camera framework's headers: [frames] is an [unsigned int]
    (0: no limit), [timeout] a duration whose conversion to [bool] is
    "not zero", [keypress] and [signal] are flags. *)
Record VideoOptions := {
  codec : string;
  frames : Z;
  timeout : Z;
  keypress : bool;
  signal : bool
}.

(** [RPiCamEncoder::FLAG_VIDEO_*], the argument of [ConfigureVideo]. *)
Inductive VideoFlags := FLAG_VIDEO_NONE | FLAG_VIDEO_JPEG_COLOURSPACE.

Inductive LogLine :=
| ReceivedSignal (signal_number : Z)
| DeviceTimeout
| ViewfinderFrame (count : Z)
| HaltingTimeout (limit : Z).

(** What the program does to its collaborators, in program order. *)
Inductive Action :=
| OpenCamera
| ConfigureVideo (flags : VideoFlags)
| StartEncoder
| StartCamera
| StopCamera
| StopEncoder
| EncodeBuffer
| ShowPreview
| OutputSignal
| LOG (level : Z) (line : LogLine)
| LOG_ERROR (line : LogLine).

#[export] Instance LogLine_eq_dec : EqDecision LogLine.
Proof. solve_decision. Defined.
#[export] Instance VideoFlags_eq_dec : EqDecision VideoFlags.
Proof. solve_decision. Defined.
#[export] Instance Action_eq_dec : EqDecision Action.
Proof. solve_decision. Defined.
Arguments Action_eq_dec : simpl never.

(** The variables the loop owns ([count], [start_time]), the file-scope
    [signal_received], and the calls made so far. *)
Record RunState := {
  count : Z;
  start_time : Z;
  signal_received : Z;
  trace : list Action
}.

Definition emit (a : list Action) (st : RunState) : RunState :=
  {| count := count st; start_time := start_time st;
     signal_received := signal_received st; trace := trace st ++ a |}.

Definition set_signal_received (n : Z) (st : RunState) : RunState :=
  {| count := count st; start_time := start_time st;
     signal_received := n; trace := trace st |}.

Definition set_count (c : Z) (st : RunState) : RunState :=
  {| count := c; start_time := start_time st;
     signal_received := signal_received st; trace := trace st |}.

Definition set_start_time (t : Z) (st : RunState) : RunState :=
  {| count := count st; start_time := t;
     signal_received := signal_received st; trace := trace st |}.

(* ===================================================================== *)
(** ** Signal bridge *)
(* ===================================================================== *)

(** Linux signal numbers. *)
Definition SIGINT : Z := 2.
Definition SIGUSR1 : Z := 10.
Definition SIGUSR2 : Z := 12.
Definition SIGPIPE : Z := 13.

(** What [poll(p, 1, 0)] followed by [getline] finds on standard input:
    nothing to read, or a line, which has a first character. *)
Inductive StdinPoll :=
| NotReady
| Line (first : ascii) (rest : string).

(** A [char] read as an [int] (line 151); character codes are 0..255. *)
Definition char_to_int (c : ascii) : Z := Z.of_nat (nat_of_ascii c).

(** The key values the program names: [0], ['\n'], ['x'] and ['X']. *)
Definition key_none : Z := 0.
Definition key_newline : Z := char_to_int "010".
Definition key_x : Z := char_to_int "x".
Definition key_X : Z := char_to_int "X".

(** [default_signal_handler] (132-136). *)
Definition default_signal_handler (signal_number : Z) (st : RunState)
    : RunState :=
  emit [LOG 1 (ReceivedSignal signal_number)]
       (set_signal_received signal_number st).

(** [get_key_or_signal] (138-163): the key, and the state with
    [signal_received] as the call leaves it. *)
Definition get_key_or_signal (options : VideoOptions) (p : StdinPoll)
    (st : RunState) : Z * RunState :=
  let key := key_none in
  if signal_received st =? SIGINT then (key_x, st)
  else
    let key :=
      if keypress options then
        match p with
        | Line first _ => char_to_int first
        | NotReady => key
        end
      else key in
    if signal options then
      let key :=
        if signal_received st =? SIGUSR1 then key_newline
        else if (signal_received st =? SIGUSR2)
                || (signal_received st =? SIGPIPE) then key_x
        else key in
      (key, set_signal_received 0 st)
    else (key, st).

(** [get_colourspace_flags] (165-171). *)
Definition get_colourspace_flags (codec : string) : VideoFlags :=
  if bool_decide (codec = "mjpeg") || bool_decide (codec = "yuv420")
  then FLAG_VIDEO_JPEG_COLOURSPACE
  else FLAG_VIDEO_NONE.

(* ===================================================================== *)
(** ** Capture orchestrator: [event_loop] *)
(* ===================================================================== *)

(** What the environment supplies to an iteration that handles a completed
    request: what standard input holds when polled, the reading of
    [high_resolution_clock::now()] at line 218, and the answer of
    [EncodeBuffer] at line 232. *)
Record Capture := {
  stdin_poll : StdinPoll;
  now : Z;
  encode_ok : bool
}.

(** The message [app.Wait()] returns.  [MsgUnrecognised] stands for any
    type that is none of the three the loop names. *)
Inductive Msg :=
| MsgTimeout
| MsgQuit
| MsgRequestComplete (c : Capture)
| MsgUnrecognised.

(** One call of [Wait]: the signals whose handler ran while the loop was
    blocked there, in arrival order, and the message returned. *)
Record Event := {
  arrivals : list Z;
  msg : Msg
}.

(** [event_loop] returns [void]; the model labels each [return] with the
    termination cause of the specification.  On line 222 the cause is the
    first of the three disjuncts that holds, in the order written. *)
Inductive Cause :=
| ElapsedTimeout
| FrameCountReached
| ExplicitStopKey
| UpstreamQuit.

(** How one pass through the body of the [for] statement ends: at the end
    of the body (by falling through or by [continue]), by [return], or by
    [throw]. *)
Inductive Step :=
| EndOfBody (st : RunState)
| Return (cause : Cause) (st : RunState)
| Throw (what : string) (st : RunState).

Definition termination_cause (timeout frameout : bool) : Cause :=
  if timeout then ElapsedTimeout
  else if frameout then FrameCountReached
  else ExplicitStopKey.

(** The handler runs once per signal that arrives while the loop is blocked
    in [Wait]. *)
Definition deliver_signals (signals : list Z) (st : RunState) : RunState :=
  foldl (fun s n => default_signal_handler n s) st signals.

(** The body of the [for] statement, lines 201-239. *)
Definition loop_body (options : VideoOptions) (ev : Event) (st : RunState)
    : Step :=
  let st := deliver_signals (arrivals ev) st in
  match msg ev with
  | MsgTimeout =>
      EndOfBody (emit [LOG_ERROR DeviceTimeout; StopCamera; StartCamera] st)
  | MsgQuit => Return UpstreamQuit st
  | MsgUnrecognised => Throw "unrecognised message!" st
  | MsgRequestComplete c =>
      let '(key, st) := get_key_or_signal options (stdin_poll c) st in
      let st := if key =? key_newline then emit [OutputSignal] st else st in
      let st := emit [LOG 2 (ViewfinderFrame (count st))] st in
      let now := now c in
      let timeout_value := timeout options in
      let timeout :=
        negb (negb (frames options =? 0))
        && negb (timeout_value =? 0)
        && (now - start_time st >? timeout_value) in
      let frameout :=
        negb (frames options =? 0) && (count st >=? frames options) in
      if timeout || frameout || (key =? key_x) || (key =? key_X) then
        let st :=
          if timeout
          then emit [LOG 1 (HaltingTimeout (Z.quot timeout_value 1000000))] st
          else st in
        Return (termination_cause timeout frameout)
               (emit [StopCamera; StopEncoder] st)
      else
        let st := emit [EncodeBuffer] st in
        let st :=
          if encode_ok c then st
          else set_count 0 (set_start_time now st) in
        EndOfBody (emit [ShowPreview] st)
  end.

(** The iteration expression [count++] of the [for] statement, on an
    [unsigned int].  It is evaluated whenever the end of the body is
    reached, [continue] included. *)
Definition for_increment (st : RunState) : RunState :=
  set_count ((count st + 1) mod 2 ^ 32) st.

(** How far the loop gets on the events available: still blocked in
    [Wait] once they are used up, returned, or left by an exception. *)
Inductive Result :=
| Waiting (st : RunState)
| Returned (cause : Cause) (st : RunState)
| Threw (what : string) (st : RunState).

(** [for (unsigned int count = 0; ; count++) { ... }], lines 199-240,
    entered in state [st]. *)
Fixpoint run_loop (options : VideoOptions) (evs : list Event)
    (st : RunState) : Result :=
  match evs with
  | [] => Waiting st
  | ev :: evs' =>
      match loop_body options ev st with
      | EndOfBody st' => run_loop options evs' (for_increment st')
      | Return cause st' => Returned cause st'
      | Throw what st' => Threw what st'
      end
  end.

(** The state in which the loop is entered (lines 183-199): the start-up
    calls made, [start_time] read from the clock ([t0]), [count] at 0 and
    [signal_received] still zero-initialised. *)
Definition startup (options : VideoOptions) (t0 : Z) : RunState :=
  {| count := 0;
     start_time := t0;
     signal_received := 0;
     trace := [OpenCamera;
               ConfigureVideo (get_colourspace_flags (codec options));
               StartEncoder;
               StartCamera] |}.

(** [event_loop] from line 183 on, the output sink having been built and
    its callbacks registered (lines 177-181). *)
Definition event_loop (options : VideoOptions) (t0 : Z) (evs : list Event)
    : Result :=
  run_loop options evs (startup options t0).

(** The calls an iteration or a run added to the trace. *)
Definition calls_since (before after : RunState) : list Action :=
  drop (length (trace before)) (trace after).

(** Number of occurrences of a call in a trace. *)
Definition times (a : Action) (l : list Action) : nat :=
  count_occ Action_eq_dec l a.

(** An event of the undisturbed recording run: no signal arrives, the
    message is a completed request, standard input offers nothing or a line
    that does not start with a stop key, and the encoder accepts the
    buffer. *)
Definition accepted_quietly (ev : Event) : bool :=
  match arrivals ev, msg ev with
  | [], MsgRequestComplete c =>
      encode_ok c
      && match stdin_poll c with
         | NotReady => true
         | Line first _ =>
             negb (char_to_int first =? key_x)
             && negb (char_to_int first =? key_X)
         end
  | _, _ => false
  end.

(** The calls made to the camera and the encoder, as opposed to log lines
    and the pulse of the output sink. *)
Definition device_call (a : Action) : bool :=
  match a with
  | LOG _ _ | LOG_ERROR _ | OutputSignal => false
  | _ => true
  end.

(** The trace ends with the orderly shutdown: [StopCamera], then
    [StopEncoder], the only [StopEncoder] of the run. *)
Definition ends_with_shutdown (l : list Action) : Prop :=
  exists before : list Action,
    l = (before ++ [StopCamera; StopEncoder])%list
    /\ times StopEncoder before = 0%nat.

(** The options with another [timeout]. *)
Definition set_timeout (t : Z) (options : VideoOptions) : VideoOptions :=
  {| codec := codec options; frames := frames options; timeout := t;
     keypress := keypress options; signal := signal options |}.

(** While the loop runs the encoder has not been stopped and the camera is
    started: every [StopCamera] so far was followed by a [StartCamera]. *)
Definition recording (st : RunState) : Prop :=
  times StopEncoder (trace st) = 0%nat
  /\ times StartCamera (trace st) = S (times StopCamera (trace st)).

(** What the trace looks like when the loop has returned. *)
Definition left_as (cause : Cause) (st : RunState) : Prop :=
  match cause with
  | UpstreamQuit => recording st
  | _ =>
      ends_with_shutdown (trace st)
      /\ times StartCamera (trace st) = times StopCamera (trace st)
  end.

(* ===================================================================== *)
(** ** Start-up: [loadConfig], [mirrored_rotation] and [main] *)
(* ===================================================================== *)

(** What [cfg.readFile("/etc/raspindi.conf")] does: it fills the store, or
    throws because the file cannot be opened (the store is not touched and
    stays empty), or throws at a syntax error (the store holds whatever
    libconfig left there). *)
Inductive ReadFile :=
| ReadOk (contents : Config)
| FileIOException
| ParseException (file : string) (line : Z) (error : string)
                 (partial : Config).

(** An exception that reaches the handler of [main]: one of libconfig's,
    or a [std::runtime_error]. *)
Inductive Exception :=
| ConfigException (e : SettingException)
| RuntimeError (what : string).

(** The lines the start-up code writes to [std::cerr]. *)
Inductive ErrLine :=
| CouldNotOpenConfigFile
| ParseErrorAt (file : string) (line : Z) (error : string)
| ErrorBanner (e : Exception).

Definition EXIT_FAILURE : Z := 1.

(** [loadConfig] (21-40): the value returned, the store [cfg] afterwards
    and the lines written. *)
Definition loadConfig (read : ReadFile) : Z * Config * list ErrLine :=
  match read with
  | ReadOk contents => (0, contents, [])
  | FileIOException => (EXIT_FAILURE, ∅, [CouldNotOpenConfigFile])
  | ParseException file line error partial =>
      (EXIT_FAILURE, partial, [ParseErrorAt file line error])
  end.

(** [libcamera::Transform].  The product [a * b] of libcamera is kept as
    written ([Product a b]); the rotations are the values
    [transformFromRotation] returns. *)
Inductive Transform :=
| Identity
| HFlip
| VFlip
| Rot90
| Rot180
| Rot270
| Product (a b : Transform).

(** [libcamera::transformFromRotation(angle, &ok)]: the angle is reduced
    modulo 360 into [0, 360); the four multiples of 90 are accepted. *)
Definition transformFromRotation (angle : Z) : Transform * bool :=
  let angle := Z.rem angle 360 in
  let angle := if angle <? 0 then angle + 360 else angle in
  if angle =? 0 then (Identity, true)
  else if angle =? 90 then (Rot90, true)
  else if angle =? 180 then (Rot180, true)
  else if angle =? 270 then (Rot270, true)
  else (Identity, false).

(** A computation that returns or leaves by an exception of either kind. *)
Inductive Outcome (A : Type) :=
| Done (a : A)
| Raised (e : Exception).
Arguments Done {A} a.
Arguments Raised {A} e.

Definition outcome_bind {A B} (m : Outcome A) (k : A -> Outcome B)
    : Outcome B :=
  match m with
  | Done a => k a
  | Raised e => Raised e
  end.

Definition of_try {A} (m : Try A) : Outcome A :=
  match m with
  | Returns a => Done a
  | Throws e => Raised (ConfigException e)
  end.

(** [mirrored_rotation] (100-130): the transform it stores in the
    options. *)
Definition mirrored_rotation (cfg : Config) : Outcome Transform :=
  outcome_bind (of_try (_getValue_string cfg "mirror" "none")) (fun value =>
  let transform := Identity in
  let hflip := false in
  let vflip := false in
  let hflip := if bool_decide (value = "horizontal") then true else hflip in
  let vflip := if bool_decide (value = "vertical") then true else vflip in
  let hflip := if bool_decide (value = "both") then true else hflip in
  let vflip := if bool_decide (value = "both") then true else vflip in
  let transform := if hflip then Product HFlip transform else transform in
  let transform := if vflip then Product VFlip transform else transform in
  outcome_bind (of_try (_getValue_int cfg "rotation" 0)) (fun angle =>
  let '(rotation, ok) := transformFromRotation angle in
  if negb ok then Raised (RuntimeError "illegal rotation value")
  else Done (Product rotation transform))).

(** The values [main] assigns to the options on lines 276-288, each as the
    right-hand side yields it, before the conversion to the type of the
    option. *)
Record CameraSettings := {
  width : Z;
  height : Z;
  framerate : Z;
  awb : string;
  awb_gain_b : spec_float;
  awb_gain_r : spec_float;
  saturation : Z;
  sharpness : Z;
  contrast : Z;
  brightness : Z;
  exposure : string;
  metering : string;
  transform : Transform
}.

(** Lines 276-288 of [main], in program order. *)
Definition resolve_settings (cfg : Config) : Outcome CameraSettings :=
  outcome_bind (of_try (_getValue_int cfg "width" 1280)) (fun width =>
  outcome_bind (of_try (_getValue_int cfg "height" 720)) (fun height =>
  outcome_bind (of_try (_getValue_int cfg "framerate" 25)) (fun framerate =>
  outcome_bind (of_try (_getValue_string cfg "awb" "auto")) (fun awb =>
  outcome_bind (of_try (_getValue_float cfg "b_gain" (S754_zero false)))
    (fun awb_gain_b =>
  outcome_bind (of_try (_getValue_float cfg "r_gain" (S754_zero false)))
    (fun awb_gain_r =>
  outcome_bind (of_try (_getValue_int cfg "saturation" 1)) (fun saturation =>
  outcome_bind (of_try (_getValue_int cfg "sharpness" 1)) (fun sharpness =>
  outcome_bind (of_try (_getValue_int cfg "contrast" 1)) (fun contrast =>
  outcome_bind (of_try (brightness_option cfg)) (fun brightness =>
  outcome_bind (of_try (_getValue_string cfg "exposuremode" "auto"))
    (fun exposure =>
  outcome_bind (of_try (_getValue_string cfg "meteringmode" "average"))
    (fun metering =>
  outcome_bind (mirrored_rotation cfg) (fun transform =>
  Done {| width := width; height := height; framerate := framerate;
          awb := awb; awb_gain_b := awb_gain_b; awb_gain_r := awb_gain_r;
          saturation := saturation; sharpness := sharpness;
          contrast := contrast; brightness := brightness;
          exposure := exposure; metering := metering;
          transform := transform |}))))))))))))).

(** The options with another [codec] (line 271). *)
Definition set_codec (c : string) (options : VideoOptions) : VideoOptions :=
  {| codec := c; frames := frames options; timeout := timeout options;
     keypress := keypress options; signal := signal options |}.

(** What a run of [main] amounts to: the value returned ([None] while the
    event loop is still waiting for a message), the lines on [std::cerr],
    the settings given to the camera when they were resolved, and the calls
    made. *)
Record MainResult := {
  exit_code : option Z;
  stderr : list ErrLine;
  settings : option CameraSettings;
  calls : list Action
}.

(** [main] (264-298).  [options0] is the options object as the framework
    constructs it; the value [loadConfig] returns is not looked at.  The
    path of the output sink is resolved on entry of [event_loop] (line
    179), before the first call to the camera. *)
Definition main (read : ReadFile) (options0 : VideoOptions) (t0 : Z)
    (evs : list Event) : MainResult :=
  let '(_, cfg, err) := loadConfig read in
  let options := set_codec "YUV420" options0 in
  match resolve_settings cfg with
  | Raised e =>
      {| exit_code := Some (-1); stderr := err ++ [ErrorBanner e];
         settings := None; calls := [] |}
  | Done resolved =>
      match _getValue_string cfg "neopixel_path" "/tmp/neopixel.state" with
      | Throws e =>
          {| exit_code := Some (-1);
             stderr := err ++ [ErrorBanner (ConfigException e)];
             settings := Some resolved; calls := [] |}
      | Returns _ =>
          match event_loop options t0 evs with
          | Waiting st =>
              {| exit_code := None; stderr := err;
                 settings := Some resolved; calls := trace st |}
          | Returned _ st =>
              {| exit_code := Some 0; stderr := err;
                 settings := Some resolved; calls := trace st |}
          | Threw what st =>
              {| exit_code := Some (-1);
                 stderr := err ++ [ErrorBanner (RuntimeError what)];
                 settings := Some resolved; calls := trace st |}
          end
      end
  end.

(** The types the program reads each key of the store at. *)
Inductive KeyType := IntKey | FloatKey | StringKey.

Definition read_keys : list (string * KeyType) :=
  [("width", IntKey); ("height", IntKey); ("framerate", IntKey);
   ("awb", StringKey); ("b_gain", FloatKey); ("r_gain", FloatKey);
   ("saturation", IntKey); ("sharpness", IntKey); ("contrast", IntKey);
   ("brightness", IntKey); ("exposuremode", StringKey);
   ("meteringmode", StringKey); ("mirror", StringKey);
   ("rotation", IntKey)].

(** A key is usable when it is absent or holds a setting of the type it is
    read at. *)
Definition usable (cfg : Config) (key : string * KeyType) : bool :=
  match cfg !! key.1, key.2 with
  | None, _ => true
  | Some (TypeInt _), IntKey => true
  | Some (TypeFloat _), FloatKey => true
  | Some (TypeString _), StringKey => true
  | Some _, _ => false
  end.

Arguments usable : simpl never.

(** The first key, in the order the program reads them, that is not
    usable. *)
Definition first_unusable (cfg : Config) : option (string * KeyType) :=
  find (fun key => negb (usable cfg key)) read_keys.

(** The values [main] resolves from an empty store. *)
Definition default_settings : CameraSettings :=
  {| width := 1280; height := 720; framerate := 25; awb := "auto";
     awb_gain_b := S754_zero false; awb_gain_r := S754_zero false;
     saturation := 1; sharpness := 1; contrast := 1; brightness := 0;
     exposure := "auto"; metering := "average";
     transform := Product Identity Identity |}.

(** The rotation the store asks for (0 when it names none) is a multiple
    of 90 degrees. *)
Definition rotation_legal (cfg : Config) : bool :=
  match cfg !! "rotation" with
  | Some (TypeInt angle) => Z.rem angle 90 =? 0
  | _ => true
  end.

(** An event of a run that is waiting to start recording: like
    [accepted_quietly], except that the encoder defers the buffer. *)
Definition deferred_quietly (ev : Event) : bool :=
  match arrivals ev, msg ev with
  | [], MsgRequestComplete c =>
      negb (encode_ok c)
      && match stdin_poll c with
         | NotReady => true
         | Line first _ =>
             negb (char_to_int first =? key_x)
             && negb (char_to_int first =? key_X)
         end
  | _, _ => false
  end.

(** The message of the event is a device timeout. *)
Definition is_timeout (ev : Event) : bool :=
  match msg ev with
  | MsgTimeout => true
  | _ => false
  end.

(** The state a result carries. *)
Definition final_state (r : Result) : RunState :=
  match r with
  | Waiting st | Returned _ st | Threw _ st => st
  end.

(** The state in which a pass through the body ends. *)
Definition step_state (s : Step) : RunState :=
  match s with
  | EndOfBody st | Return _ st | Throw _ st => st
  end.

(** The calls to the camera and the encoder a pass through the body makes,
    by the message handled and the way the pass ends. *)
Definition device_calls_of (m : Msg) (s : Step) : list Action :=
  match s with
  | EndOfBody _ =>
      match m with
      | MsgTimeout => [StopCamera; StartCamera]
      | _ => [EncodeBuffer; ShowPreview]
      end
  | Return UpstreamQuit _ => []
  | Return _ _ => [StopCamera; StopEncoder]
  | Throw _ _ => []
  end.

(** Every completed request of the sequence comes at most [limit] ticks
    after the one before it, the first at most [limit] after [previous]. *)
Fixpoint paced (limit previous : Z) (evs : list Event) : bool :=
  match evs with
  | [] => true
  | ev :: evs' =>
      match msg ev with
      | MsgRequestComplete c =>
          (now c - previous <=? limit) && paced limit (now c) evs'
      | _ => false
      end
  end.

(* ===================================================================== *)
(** ** Properties of the parameter resolver *)
(* ===================================================================== *)

Section Resolver.

Variable cfg : Config.
Variable parameter : string.

Lemma cfg_lookup_found s :
  cfg !! parameter = Some s -> cfg_lookup cfg parameter = Returns s.
Proof. intros H. unfold cfg_lookup. now rewrite H. Qed.

(** The bounded overload on a stored integer: three ranges, decided by
    [max] and by the literal 0. *)
Lemma _getValue_bounded_stored defaultValue min max value :
  cfg !! parameter = Some (TypeInt value) ->
  _getValue_bounded cfg parameter defaultValue min max =
    if value >? max then (Returns 100, [InvalidValue parameter value])
    else if value <? 0 then (Returns 0, [InvalidValue parameter value])
    else (Returns value, []).
Proof.
  intros H. unfold _getValue_bounded.
  rewrite (cfg_lookup_found _ H). reflexivity.
Qed.

(** C4 (as amended).  When the stored integer exceeds [max], the bounded
    resolver returns the constant 100, whatever [max], [min], the default
    and the stored value are, and writes one warning; a stored value that
    is negative and not above [max] gives 0 with one warning.  The constant
    is returned as an ordinary value: it differs from the stored value
    exactly when that is not 100 itself. *)
Theorem bounded_lookup_over_range defaultValue min max value :
  cfg !! parameter = Some (TypeInt value) ->
  (max < value ->
     _getValue_bounded cfg parameter defaultValue min max
       = (Returns 100, [InvalidValue parameter value])
     /\ (value <> 100 ->
         fst (_getValue_bounded cfg parameter defaultValue min max)
           <> Returns value))
  /\ (value <= max -> value < 0 ->
        _getValue_bounded cfg parameter defaultValue min max
          = (Returns 0, [InvalidValue parameter value])).
Proof.
  intros H. rewrite (_getValue_bounded_stored _ _ _ _ H). split.
  - intros Hgt. destruct (Z.gtb_spec value max) as [_|Hle]; [|lia].
    split; [reflexivity|]. cbn. intros Hne Heq. congruence.
  - intros Hle Hneg.
    destruct (Z.gtb_spec value max) as [Hgt|_]; [lia|].
    destruct (Z.ltb_spec value 0) as [_|Hge]; [reflexivity|lia].
Qed.

(** C5 (as amended).  The three unbounded overloads, by what the store
    holds under the name: the default when the name is absent, the stored
    value when its type is the overload's, and otherwise the type
    exception of the conversion, which no overload catches. *)
Theorem unbounded_lookup_outcomes (di : Z) (df : spec_float) (ds : string) :
  match cfg !! parameter with
  | None =>
      _getValue_int cfg parameter di = Returns di
      /\ _getValue_float cfg parameter df = Returns df
      /\ _getValue_string cfg parameter ds = Returns ds
  | Some (TypeInt v) =>
      _getValue_int cfg parameter di = Returns v
      /\ _getValue_float cfg parameter df
           = Throws (SettingTypeException parameter)
      /\ _getValue_string cfg parameter ds
           = Throws (SettingTypeException parameter)
  | Some (TypeFloat v) =>
      _getValue_int cfg parameter di = Throws (SettingTypeException parameter)
      /\ _getValue_float cfg parameter df = Returns (narrow_to_float v)
      /\ _getValue_string cfg parameter ds
           = Throws (SettingTypeException parameter)
  | Some (TypeString v) =>
      _getValue_int cfg parameter di = Throws (SettingTypeException parameter)
      /\ _getValue_float cfg parameter df
           = Throws (SettingTypeException parameter)
      /\ _getValue_string cfg parameter ds = Returns v
  | Some _ =>
      _getValue_int cfg parameter di = Throws (SettingTypeException parameter)
      /\ _getValue_float cfg parameter df
           = Throws (SettingTypeException parameter)
      /\ _getValue_string cfg parameter ds
           = Throws (SettingTypeException parameter)
  end.
Proof.
  unfold _getValue_int, _getValue_float, _getValue_string, cfg_lookup.
  destruct (cfg !! parameter) as [[v|v|v|v|v]|]; cbn; repeat split.
Qed.

End Resolver.

(** C4, the claim as stated fails: with [max = 50] and a stored value of
    100 the result of the over-range branch is the stored value itself. *)
Lemma over_range_result_is_stored_value :
  let cfg : Config := {[ "sharpness" := TypeInt 100 ]} in
  cfg !! "sharpness" = Some (TypeInt 100)
  /\ 50 < 100
  /\ fst (_getValue_bounded cfg "sharpness" 1 0 50) = Returns 100.
Proof. vm_compute. repeat split. Qed.

Lemma bounded_lookup_over_range_witness :
  _getValue_bounded {[ "sharpness" := TypeInt 150 ]} "sharpness" 1 0 100
    = (Returns 100, [InvalidValue "sharpness" 150])
  /\ _getValue_bounded {[ "sharpness" := TypeInt (-5) ]} "sharpness" 1 0 100
    = (Returns 0, [InvalidValue "sharpness" (-5)]).
Proof.
  split.
  - apply (bounded_lookup_over_range
             {[ "sharpness" := TypeInt 150 ]} "sharpness" 1 0 100 150);
      [reflexivity | lia].
  - apply (bounded_lookup_over_range
             {[ "sharpness" := TypeInt (-5) ]} "sharpness" 1 0 100 (-5));
      [reflexivity | lia | lia].
Defined.

(** C5, the claim as stated fails: a stored value of another type makes
    the integer overload throw instead of returning the default. *)
Lemma type_mismatch_is_not_defaulted :
  _getValue_int {[ "width" := TypeString "wide" ]} "width" 1280
    = Throws (SettingTypeException "width")
  /\ _getValue_int {[ "width" := TypeString "wide" ]} "width" 1280
    <> Returns 1280.
Proof. split; [reflexivity | discriminate]. Qed.

(** C10.  For a resolved brightness [b] between 0 and 100 the option is
    [b / 50 - 1] and takes exactly three values: -1 below 50, 0 from 50 to
    99, and 1 at 100. *)
Theorem brightness_three_levels (cfg : Config) (b : Z) :
  _getValue_int cfg "brightness" 50 = Returns b ->
  0 <= b <= 100 ->
  brightness_option cfg = Returns (Z.quot b 50 - 1)
  /\ Z.quot b 50 - 1 = (if b <? 50 then -1 else if b <? 100 then 0 else 1).
Proof.
  intros Hb Hrange. unfold brightness_option. rewrite Hb. cbn [try_bind].
  split; [reflexivity|].
  rewrite Z.quot_div_nonneg by lia.
  destruct (Z.ltb_spec b 50) as [H50|H50].
  - rewrite Z.div_small by lia. reflexivity.
  - destruct (Z.ltb_spec b 100) as [H100|H100].
    + replace (b / 50) with 1; [reflexivity|].
      apply Z.div_unique with (r := b - 50); lia.
    + replace b with 100 by lia. reflexivity.
Qed.

Lemma brightness_three_levels_witness :
  brightness_option {[ "brightness" := TypeInt 75 ]} = Returns 0
  /\ brightness_option {[ "brightness" := TypeInt 100 ]} = Returns 1
  /\ brightness_option {[ "brightness" := TypeInt 49 ]} = Returns (-1)
  /\ brightness_option (∅ : Config) = Returns 0.
Proof.
  split; [|split; [|split]].
  - apply (brightness_three_levels {[ "brightness" := TypeInt 75 ]} 75);
      [reflexivity | lia].
  - apply (brightness_three_levels {[ "brightness" := TypeInt 100 ]} 100);
      [reflexivity | lia].
  - apply (brightness_three_levels {[ "brightness" := TypeInt 49 ]} 49);
      [reflexivity | lia].
  - apply (brightness_three_levels ∅ 50); [reflexivity | lia].
Defined.

(* ===================================================================== *)
(** ** Properties of the signal bridge *)
(* ===================================================================== *)

Section SignalBridge.

Variable options : VideoOptions.

(** C8.  With the interrupt signal pending the call returns ['x'],
    whatever the two option flags are and whatever standard input holds;
    the pending signal is left in place. *)
Theorem interrupt_yields_stop_key (p : StdinPoll) (st : RunState) :
  signal_received st = SIGINT ->
  get_key_or_signal options p st = (char_to_int "x", st).
Proof.
  intros Hint. unfold get_key_or_signal. rewrite Hint. reflexivity.
Qed.

(** The key a call returns when no interrupt is pending. *)
Lemma get_key_or_signal_no_interrupt (p : StdinPoll) (st : RunState) :
  signal_received st <> SIGINT ->
  fst (get_key_or_signal options p st) =
    let typed :=
      if keypress options then
        match p with Line first _ => char_to_int first | NotReady => 0 end
      else 0 in
    if signal options then
      if signal_received st =? SIGUSR1 then key_newline
      else if (signal_received st =? SIGUSR2)
              || (signal_received st =? SIGPIPE) then key_x
      else typed
    else typed.
Proof.
  intros Hint. unfold get_key_or_signal.
  destruct (Z.eqb_spec (signal_received st) SIGINT) as [Heq|_];
    [contradiction|].
  cbn zeta. destruct (signal options); [|reflexivity].
  cbn [fst]. reflexivity.
Qed.

(** C9 (as amended).  With interactive-key mode on, no interrupt pending
    and a line on standard input, the call returns the first character of
    the line unless signal mode is on and one of the three other signals
    is pending; then the key of that signal replaces the character. *)
Theorem stdin_key_unless_signal (first : ascii) (rest : string)
    (st : RunState) :
  keypress options = true ->
  signal_received st <> SIGINT ->
  fst (get_key_or_signal options (Line first rest) st) =
    if signal options && (signal_received st =? SIGUSR1)
    then char_to_int "010"
    else if signal options
            && ((signal_received st =? SIGUSR2)
                || (signal_received st =? SIGPIPE))
    then char_to_int "x"
    else char_to_int first.
Proof.
  intros Hkey Hint.
  rewrite (get_key_or_signal_no_interrupt _ _ Hint), Hkey. cbn zeta.
  destruct (signal options); cbn [andb]; [|reflexivity].
  destruct (signal_received st =? SIGUSR1); [reflexivity|].
  destruct ((signal_received st =? SIGUSR2)
            || (signal_received st =? SIGPIPE)); reflexivity.
Qed.

End SignalBridge.

Lemma interrupt_yields_stop_key_witness :
  let options := {| codec := "YUV420"; frames := 0; timeout := 0;
                    keypress := true; signal := true |} in
  let st := {| count := 3; start_time := 0; signal_received := 2;
               trace := [] |} in
  get_key_or_signal options (Line "a" "") st = (120, st).
Proof.
  cbv zeta.
  apply (interrupt_yields_stop_key
           {| codec := "YUV420"; frames := 0; timeout := 0;
              keypress := true; signal := true |}
           (Line "a" "")
           {| count := 3; start_time := 0; signal_received := 2;
              trace := [] |}).
  reflexivity.
Defined.

(** C9, the claim as stated fails: with both modes on and [SIGUSR1]
    pending, a typed line starting with ['x'] yields the newline key. *)
Lemma stdin_key_overridden_by_signal :
  let options := {| codec := "YUV420"; frames := 0; timeout := 0;
                    keypress := true; signal := true |} in
  let st := {| count := 0; start_time := 0; signal_received := SIGUSR1;
               trace := [] |} in
  keypress options = true
  /\ signal_received st <> SIGINT
  /\ fst (get_key_or_signal options (Line "x" "") st) = char_to_int "010"
  /\ fst (get_key_or_signal options (Line "x" "") st) <> char_to_int "x".
Proof. vm_compute. repeat split; discriminate. Qed.

Lemma stdin_key_unless_signal_witness :
  fst (get_key_or_signal
         {| codec := "YUV420"; frames := 0; timeout := 0;
            keypress := true; signal := false |}
         (Line "p" "")
         {| count := 0; start_time := 0; signal_received := 12;
            trace := [] |}) = 112.
Proof.
  apply (stdin_key_unless_signal
           {| codec := "YUV420"; frames := 0; timeout := 0;
              keypress := true; signal := false |}
           "p" ""
           {| count := 0; start_time := 0; signal_received := 12;
              trace := [] |});
    [reflexivity | discriminate].
Defined.

(* ===================================================================== *)
(** ** Properties of the capture orchestrator *)
(* ===================================================================== *)

(** *** What each helper leaves alone *)

Lemma trace_emit a st : trace (emit a st) = (trace st ++ a)%list.
Proof. reflexivity. Qed.

Lemma times_app a l k : times a (l ++ k) = (times a l + times a k)%nat.
Proof. apply count_occ_app. Qed.

Lemma deliver_signals_fields signals st :
  count (deliver_signals signals st) = count st
  /\ start_time (deliver_signals signals st) = start_time st
  /\ trace (deliver_signals signals st)
     = (trace st ++ map (fun n => LOG 1 (ReceivedSignal n)) signals)%list.
Proof.
  revert st. induction signals as [|n signals IH]; intros st.
  - cbn. now rewrite app_nil_r.
  - change (deliver_signals (n :: signals) st)
      with (deliver_signals signals (default_signal_handler n st)).
    destruct (IH (default_signal_handler n st)) as (Hc & Hs & Ht).
    rewrite Hc, Hs, Ht. cbn. now rewrite <- app_assoc.
Qed.

(** The handler only writes log lines: no call to the camera or the
    encoder is added while signals are delivered. *)
Lemma deliver_signals_times a signals st :
  (forall line, a <> LOG 1 line) ->
  times a (trace (deliver_signals signals st)) = times a (trace st).
Proof.
  intros Ha. destruct (deliver_signals_fields signals st) as (_ & _ & ->).
  rewrite times_app.
  assert (times a (map (fun n => LOG 1 (ReceivedSignal n)) signals) = 0%nat)
    as ->; [|lia].
  induction signals as [|n signals IH]; [reflexivity|].
  unfold times in *. cbn [map].
  rewrite count_occ_cons_neq; [exact IH|].
  intros Heq. now apply (Ha (ReceivedSignal n)).
Qed.

(** [get_key_or_signal] writes [signal_received] and nothing else. *)
Lemma get_key_or_signal_fields options p st :
  let st' := snd (get_key_or_signal options p st) in
  count st' = count st /\ start_time st' = start_time st
  /\ trace st' = trace st.
Proof.
  unfold get_key_or_signal.
  destruct (signal_received st =? SIGINT); [now cbn|].
  cbn zeta. destruct (signal options); now cbn.
Qed.

(** [loop_body] on a completed request, with the intermediate values
    named as in the source. *)
Lemma loop_body_request_complete options signals c st :
  loop_body options {| arrivals := signals; msg := MsgRequestComplete c |} st
  = let st1 := deliver_signals signals st in
    let key := fst (get_key_or_signal options (stdin_poll c) st1) in
    let st2 := snd (get_key_or_signal options (stdin_poll c) st1) in
    let st3 := if key =? key_newline then emit [OutputSignal] st2 else st2 in
    let st4 := emit [LOG 2 (ViewfinderFrame (count st3))] st3 in
    let timeout_ :=
      (frames options =? 0) && negb (timeout options =? 0)
      && (now c - start_time st4 >? timeout options) in
    let frameout :=
      negb (frames options =? 0) && (count st4 >=? frames options) in
    if timeout_ || frameout || (key =? key_x) || (key =? key_X) then
      Return (termination_cause timeout_ frameout)
        (emit [StopCamera; StopEncoder]
           (if timeout_
            then emit [LOG 1 (HaltingTimeout (Z.quot (timeout options) 1000000))]
                      st4
            else st4))
    else
      EndOfBody
        (emit [ShowPreview]
           (if encode_ok c then emit [EncodeBuffer] st4
            else set_count 0 (set_start_time (now c) (emit [EncodeBuffer] st4)))).
Proof.
  unfold loop_body. cbn [arrivals msg].
  destruct (get_key_or_signal options (stdin_poll c)
              (deliver_signals signals st)) as [key st2].
  cbn [fst snd]. cbv zeta. rewrite negb_involutive. reflexivity.
Qed.

(** The state in which the decision of line 222 is taken has the counter
    and the clock anchor of the start of the iteration. *)
Lemma decision_state_fields options signals p st :
  let st1 := deliver_signals signals st in
  let key := fst (get_key_or_signal options p st1) in
  let st2 := snd (get_key_or_signal options p st1) in
  let st3 := if key =? key_newline then emit [OutputSignal] st2 else st2 in
  let st4 := emit [LOG 2 (ViewfinderFrame (count st3))] st3 in
  count st4 = count st /\ start_time st4 = start_time st.
Proof.
  cbv zeta.
  destruct (get_key_or_signal_fields options p (deliver_signals signals st))
    as (Hc & Hs & _).
  destruct (deliver_signals_fields signals st) as (Hc' & Hs' & _).
  cbv zeta in Hc, Hs.
  destruct (_ =? key_newline); cbn; rewrite ?Hc, ?Hs; auto.
Qed.

(** *** A device timeout *)

(** C1.  The code on a Timeout message, in any state: the iteration logs
    the error, stops and starts the camera once each, does not leave the
    loop and keeps [start_time]; but [continue] in a [for] statement runs
    the iteration expression, so the loop blocks in the next [Wait] with
    [count] one higher, where the claim has it unchanged. *)
Theorem timeout_iteration_increments_count (options : VideoOptions)
    (signals : list Z) (st : RunState) :
  exists st',
    run_loop options [{| arrivals := signals; msg := MsgTimeout |}] st
      = Waiting st'
    /\ calls_since (deliver_signals signals st) st'
       = [LOG_ERROR DeviceTimeout; StopCamera; StartCamera]
    /\ start_time st' = start_time st
    /\ count st' = (count st + 1) mod 2 ^ 32.
Proof.
  exists (for_increment
            (emit [LOG_ERROR DeviceTimeout; StopCamera; StartCamera]
                  (deliver_signals signals st))).
  destruct (deliver_signals_fields signals st) as (Hc & Hs & _).
  split; [reflexivity|]. split; [|split].
  - unfold calls_since. cbn [for_increment set_count trace].
    rewrite trace_emit. apply drop_app_length.
  - cbn. exact Hs.
  - cbn [for_increment set_count emit count]. now rewrite Hc.
Qed.

(** With a frame limit of 2, one device timeout before the first frame
    makes the loop stop after a single frame has been passed to the
    encoder. *)
Lemma timeout_shortens_frame_limit :
  let options := {| codec := "YUV420"; frames := 2; timeout := 0;
                    keypress := false; signal := false |} in
  let frame t := {| arrivals := [];
                    msg := MsgRequestComplete
                             {| stdin_poll := NotReady; now := t;
                                encode_ok := true |} |} in
  exists st,
    event_loop options 0
      [{| arrivals := []; msg := MsgTimeout |}; frame 40; frame 80]
      = Returned FrameCountReached st
    /\ times EncodeBuffer (trace st) = 1%nat.
Proof. eexists. split; vm_compute; reflexivity. Qed.

(** *** Deferred encodes *)

(** C7.  An iteration that reaches the end of the body leaves [count] and
    [start_time] as they were, except when it handled a completed request
    whose [EncodeBuffer] returned false: then, and only then, both are
    assigned, [start_time] the [now] of the iteration and [count] 0.  The
    one other writer of either variable is the iteration expression, which
    adds one to [count] and leaves [start_time] alone. *)
Theorem deferred_encode_resets_together (options : VideoOptions)
    (ev : Event) (st st' : RunState) :
  loop_body options ev st = EndOfBody st' ->
  match msg ev with
  | MsgRequestComplete c =>
      if encode_ok c
      then count st' = count st /\ start_time st' = start_time st
      else count st' = 0 /\ start_time st' = now c
  | _ => count st' = count st /\ start_time st' = start_time st
  end
  /\ count (for_increment st') = (count st' + 1) mod 2 ^ 32
  /\ start_time (for_increment st') = start_time st'.
Proof.
  intros Hbody. split; [|split; reflexivity].
  destruct ev as [signals [ | |c| ]]; cbn [msg].
  - unfold loop_body in Hbody. cbn in Hbody. inversion Hbody; subst; cbn.
    destruct (deliver_signals_fields signals st) as (Hc & Hs & _). auto.
  - discriminate Hbody.
  - rewrite loop_body_request_complete in Hbody. cbv zeta in Hbody.
    destruct (decision_state_fields options signals (stdin_poll c) st)
      as (Hc & Hs).
    cbv zeta in Hc, Hs.
    destruct (_ || _ || _ || _) in Hbody; [discriminate|].
    inversion Hbody; subst; clear Hbody.
    destruct (encode_ok c); cbn; auto.
  - discriminate Hbody.
Qed.

Lemma deferred_encode_resets_together_witness :
  let options := {| codec := "YUV420"; frames := 0; timeout := 0;
                    keypress := false; signal := false |} in
  let ev := {| arrivals := [];
               msg := MsgRequestComplete {| stdin_poll := NotReady; now := 140;
                                            encode_ok := false |} |} in
  let st := {| count := 7; start_time := 100; signal_received := 0;
               trace := [] |} in
  let st' := {| count := 0; start_time := 140; signal_received := 0;
                trace := [LOG 2 (ViewfinderFrame 7); EncodeBuffer;
                          ShowPreview] |} in
  loop_body options ev st = EndOfBody st'
  /\ count st' = 0 /\ start_time st' = 140.
Proof.
  intros options ev st st'.
  split; [reflexivity|].
  exact (proj1 (deferred_encode_resets_together options ev st st' eq_refl)).
Defined.

(** *** Calls made by one iteration *)

Lemma times_log a level line :
  device_call a = true -> times a [LOG level line] = 0%nat.
Proof.
  intros Ha. unfold times. apply count_occ_cons_neq.
  intros <-. discriminate Ha.
Qed.

Lemma times_log_error a line :
  device_call a = true -> times a [LOG_ERROR line] = 0%nat.
Proof.
  intros Ha. unfold times. apply count_occ_cons_neq.
  intros <-. discriminate Ha.
Qed.

Lemma times_output_signal a :
  device_call a = true -> times a [OutputSignal] = 0%nat.
Proof.
  intros Ha. unfold times. apply count_occ_cons_neq.
  intros <-. discriminate Ha.
Qed.

Lemma deliver_signals_device_calls a signals st :
  device_call a = true ->
  times a (trace (deliver_signals signals st)) = times a (trace st).
Proof.
  intros Ha. apply deliver_signals_times.
  intros line ->. discriminate Ha.
Qed.

(** Up to the decision of line 222 an iteration makes no device call. *)
Lemma decision_state_device_calls options signals p st a :
  device_call a = true ->
  let st1 := deliver_signals signals st in
  let key := fst (get_key_or_signal options p st1) in
  let st2 := snd (get_key_or_signal options p st1) in
  let st3 := if key =? key_newline then emit [OutputSignal] st2 else st2 in
  let st4 := emit [LOG 2 (ViewfinderFrame (count st3))] st3 in
  times a (trace st4) = times a (trace st).
Proof.
  intros Ha. cbv zeta.
  destruct (get_key_or_signal_fields options p (deliver_signals signals st))
    as (_ & _ & Ht).
  cbv zeta in Ht.
  rewrite trace_emit, times_app, (times_log _ _ _ Ha), Nat.add_0_r.
  destruct (_ =? key_newline).
  - rewrite trace_emit, times_app, (times_output_signal _ Ha), Nat.add_0_r, Ht.
    now apply deliver_signals_device_calls.
  - rewrite Ht. now apply deliver_signals_device_calls.
Qed.

(** The device calls of one pass through the body, by the way it ends. *)
Lemma loop_body_device_calls options ev st a :
  device_call a = true ->
  match loop_body options ev st with
  | EndOfBody st' =>
      times a (trace st')
      = (times a (trace st)
         + times a match msg ev with
                   | MsgTimeout => [StopCamera; StartCamera]
                   | _ => [EncodeBuffer; ShowPreview]
                   end)%nat
  | Return UpstreamQuit st' => times a (trace st') = times a (trace st)
  | Return _ st' =>
      exists before : list Action,
        trace st' = (before ++ [StopCamera; StopEncoder])%list
        /\ times a before = times a (trace st)
  | Throw _ st' => times a (trace st') = times a (trace st)
  end.
Proof.
  intros Ha. destruct ev as [signals [ | |c| ]].
  - cbn [loop_body arrivals msg].
    rewrite trace_emit, times_app, (deliver_signals_device_calls _ _ _ Ha).
    change [LOG_ERROR DeviceTimeout; StopCamera; StartCamera]
      with ([LOG_ERROR DeviceTimeout] ++ [StopCamera; StartCamera])%list.
    now rewrite times_app, (times_log_error _ _ Ha).
  - cbn [loop_body arrivals msg]. now apply deliver_signals_device_calls.
  - rewrite loop_body_request_complete. cbv zeta.
    pose proof (decision_state_device_calls
                  options signals (stdin_poll c) st a Ha) as H4.
    cbv zeta in H4.
    set (st4 := emit [LOG 2 (ViewfinderFrame _)] _) in *.
    destruct (_ || _ || _ || _).
    + assert (exists before : list Action,
                 trace (emit [StopCamera; StopEncoder]
                          (if (frames options =? 0)
                              && negb (timeout options =? 0)
                              && (now c - start_time st4 >? timeout options)
                           then emit [LOG 1 (HaltingTimeout
                                               (Z.quot (timeout options)
                                                       1000000))] st4
                           else st4))
                 = (before ++ [StopCamera; StopEncoder])%list
                 /\ times a before = times a (trace st)) as Hshut.
      { eexists. split; [apply trace_emit|].
        destruct (_ && _ && _); [|exact H4].
        now rewrite trace_emit, times_app, (times_log _ _ _ Ha), Nat.add_0_r. }
      unfold termination_cause.
      destruct (_ && _ && _); [exact Hshut|].
      destruct (_ && _); exact Hshut.
    + cbn [msg]. rewrite trace_emit, times_app.
      change [EncodeBuffer; ShowPreview]
        with ([EncodeBuffer] ++ [ShowPreview])%list.
      rewrite times_app, Nat.add_assoc. f_equal.
      destruct (encode_ok c); cbn [trace set_count set_start_time];
        now rewrite trace_emit, times_app, H4.
  - cbn [loop_body arrivals msg]. now apply deliver_signals_device_calls.
Qed.

(** *** Shutdown *)

Lemma recording_startup options t0 : recording (startup options t0).
Proof. split; reflexivity. Qed.

Lemma loop_body_keeps_recording options ev st st' :
  recording st -> loop_body options ev st = EndOfBody st' -> recording st'.
Proof.
  intros [Henc Hcam] Hbody. unfold recording.
  pose proof (loop_body_device_calls options ev st StopEncoder eq_refl) as H1.
  pose proof (loop_body_device_calls options ev st StartCamera eq_refl) as H2.
  pose proof (loop_body_device_calls options ev st StopCamera eq_refl) as H3.
  rewrite Hbody in H1, H2, H3. rewrite H1, H2, H3, Henc, Hcam.
  destruct (msg ev); split; reflexivity.
Qed.

Lemma loop_body_return options ev st cause st' :
  recording st -> loop_body options ev st = Return cause st' ->
  left_as cause st'.
Proof.
  intros [Henc Hcam] Hbody.
  pose proof (loop_body_device_calls options ev st StopEncoder eq_refl) as H1.
  pose proof (loop_body_device_calls options ev st StartCamera eq_refl) as H2.
  pose proof (loop_body_device_calls options ev st StopCamera eq_refl) as H3.
  rewrite Hbody in H1, H2, H3.
  assert ((exists before : list Action,
              trace st' = (before ++ [StopCamera; StopEncoder])%list
              /\ times StopEncoder before = times StopEncoder (trace st)) ->
          (exists before : list Action,
              trace st' = (before ++ [StopCamera; StopEncoder])%list
              /\ times StartCamera before = times StartCamera (trace st)) ->
          (exists before : list Action,
              trace st' = (before ++ [StopCamera; StopEncoder])%list
              /\ times StopCamera before = times StopCamera (trace st)) ->
          ends_with_shutdown (trace st')
          /\ times StartCamera (trace st') = times StopCamera (trace st'))
    as Hshut.
  { intros (b1 & E1 & T1) (b2 & E2 & T2) (b3 & E3 & T3).
    assert (b2 = b1) as -> by (apply (app_inv_tail [StopCamera; StopEncoder]);
                               congruence).
    assert (b3 = b1) as -> by (apply (app_inv_tail [StopCamera; StopEncoder]);
                               congruence).
    split.
    - exists b1. split; [exact E1 | congruence].
    - rewrite E1, !times_app, T2, T3, Hcam.
      change (times StartCamera [StopCamera; StopEncoder]) with 0%nat.
      change (times StopCamera [StopCamera; StopEncoder]) with 1%nat.
      lia. }
  destruct cause; cbn [left_as]; try (apply Hshut; assumption).
  split; congruence.
Qed.

Lemma run_loop_return options evs :
  forall st cause st',
    recording st -> run_loop options evs st = Returned cause st' ->
    left_as cause st'.
Proof.
  induction evs as [|ev evs IH]; intros st cause st' Hrec Hrun;
    cbn [run_loop] in Hrun; [discriminate|].
  destruct (loop_body options ev st) as [st1|c st1|w st1] eqn:Hbody.
  - apply (IH (for_increment st1)); [|exact Hrun].
    exact (loop_body_keeps_recording _ _ _ _ Hrec Hbody).
  - inversion Hrun; subst. exact (loop_body_return _ _ _ _ _ Hrec Hbody).
  - discriminate.
Qed.

(** C3 (as amended).  When [event_loop] returns for an elapsed timeout, a
    reached frame count or a stop key, the last two calls it made are
    [StopCamera] and then [StopEncoder], the encoder was not stopped before
    and the camera is left stopped.  When it returns for an upstream Quit
    it has made neither call: the encoder was never stopped and the camera
    is left started. *)
Theorem orderly_shutdown_unless_quit (options : VideoOptions) (t0 : Z)
    (evs : list Event) (cause : Cause) (st : RunState) :
  event_loop options t0 evs = Returned cause st ->
  match cause with
  | UpstreamQuit =>
      times StopEncoder (trace st) = 0%nat
      /\ times StartCamera (trace st) = S (times StopCamera (trace st))
  | _ =>
      ends_with_shutdown (trace st)
      /\ times StartCamera (trace st) = times StopCamera (trace st)
  end.
Proof.
  intros Hrun.
  exact (run_loop_return options evs _ _ _ (recording_startup options t0) Hrun).
Qed.

Lemma orderly_shutdown_unless_quit_witness :
  let options := {| codec := "YUV420"; frames := 0; timeout := 0;
                    keypress := true; signal := false |} in
  let st := {| count := 0; start_time := 0; signal_received := 0;
               trace := [OpenCamera; ConfigureVideo FLAG_VIDEO_NONE;
                         StartEncoder; StartCamera;
                         LOG 2 (ViewfinderFrame 0);
                         StopCamera; StopEncoder] |} in
  ends_with_shutdown (trace st)
  /\ times StartCamera (trace st) = times StopCamera (trace st).
Proof.
  intros options st.
  exact (orderly_shutdown_unless_quit options 0
           [{| arrivals := [];
               msg := MsgRequestComplete
                        {| stdin_poll := Line "x" ""; now := 40;
                           encode_ok := true |} |}]
           ExplicitStopKey st eq_refl).
Defined.

(** C3, the claim as stated fails: on an upstream Quit the loop returns
    without any shutdown call. *)
Lemma quit_returns_without_shutdown :
  let options := {| codec := "YUV420"; frames := 0; timeout := 0;
                    keypress := false; signal := false |} in
  exists st,
    event_loop options 0 [{| arrivals := []; msg := MsgQuit |}]
      = Returned UpstreamQuit st
    /\ times StopCamera (trace st) = 0%nat
    /\ times StopEncoder (trace st) = 0%nat
    /\ ~ ends_with_shutdown (trace st).
Proof.
  eexists. split; [reflexivity|]. split; [reflexivity|]. split; [reflexivity|].
  intros (before & Htrace & _).
  assert (times StopEncoder (before ++ [StopCamera; StopEncoder]) = 0%nat)
    as Hnone by (rewrite <- Htrace; reflexivity).
  rewrite times_app in Hnone.
  change (times StopEncoder [StopCamera; StopEncoder]) with 1%nat in Hnone.
  lia.
Qed.

(** *** The loop over a sequence of events *)

Lemma run_loop_app options evs rest :
  forall st,
    run_loop options (evs ++ rest) st =
      match run_loop options evs st with
      | Waiting st' => run_loop options rest st'
      | finished => finished
      end.
Proof.
  induction evs as [|ev evs IH]; intros st; [reflexivity|].
  cbn [app run_loop]. destruct (loop_body options ev st); auto.
Qed.

(** *** Elapsed timeout *)

Lemma timeout_test (f t e : Z) :
  (f =? 0) && negb (t =? 0) && (e >? t) = true
  <-> f = 0 /\ t <> 0 /\ t < e.
Proof.
  destruct (Z.eqb_spec f 0), (Z.eqb_spec t 0), (Z.gtb_spec e t); cbn;
    split; try discriminate; try tauto; try lia.
Qed.

(** An iteration returns for the elapsed timeout exactly when it handles a
    completed request, no frame limit is set, the timeout is not zero and
    the time since [start_time] is strictly greater than it. *)
Lemma loop_body_elapsed_timeout options ev st :
  (exists st', loop_body options ev st = Return ElapsedTimeout st')
  <-> exists c, msg ev = MsgRequestComplete c
                /\ frames options = 0
                /\ timeout options <> 0
                /\ timeout options < now c - start_time st.
Proof.
  destruct ev as [signals [ | |c| ]]; cbn [msg].
  1,2,4: split; [intros [st' H]; discriminate H
                | intros (c & H & _); discriminate H].
  rewrite loop_body_request_complete. cbv zeta.
  destruct (decision_state_fields options signals (stdin_poll c) st)
    as (_ & Hs).
  cbv zeta in Hs. rewrite Hs. clear Hs.
  pose proof (timeout_test (frames options) (timeout options)
                           (now c - start_time st)) as Htest.
  destruct ((frames options =? 0) && negb (timeout options =? 0)
            && (now c - start_time st >? timeout options)).
  - cbn [orb termination_cause]. split.
    + intros _. exists c. split; [reflexivity|]. now apply Htest.
    + intros _. eexists. reflexivity.
  - cbn [orb]. split.
    + intros [st' H]. exfalso.
      destruct (_ || _ || _) in H; [|discriminate H].
      injection H as Hcause _.
      destruct (_ && _) in Hcause; discriminate Hcause.
    + intros (c' & Hc & Hcond). exfalso.
      injection Hc as <-. apply Htest in Hcond. discriminate Hcond.
Qed.

Lemma run_loop_elapsed_timeout options evs :
  forall st st',
    run_loop options evs st = Returned ElapsedTimeout st' ->
    frames options = 0 /\ timeout options <> 0.
Proof.
  induction evs as [|ev evs IH]; intros st st' Hrun; cbn [run_loop] in Hrun;
    [discriminate|].
  destruct (loop_body options ev st) as [st1|cause st1|w st1] eqn:Hbody.
  - exact (IH _ _ Hrun).
  - injection Hrun as -> ->.
    destruct (proj1 (loop_body_elapsed_timeout options ev st))
      as (c & _ & Hf & Ht & _); [now exists st'|]. now split.
  - discriminate.
Qed.

(** With a frame limit set, the value of the timeout is not looked at. *)
Lemma loop_body_ignores_timeout options t ev st :
  frames options <> 0 ->
  loop_body (set_timeout t options) ev st = loop_body options ev st.
Proof.
  intros Hf. destruct ev as [signals [ | |c| ]]; try reflexivity.
  rewrite !loop_body_request_complete. cbv zeta.
  change (get_key_or_signal (set_timeout t options))
    with (get_key_or_signal options).
  cbn [set_timeout frames timeout].
  destruct (Z.eqb_spec (frames options) 0) as [H0|_]; [contradiction|].
  reflexivity.
Qed.

Lemma run_loop_ignores_timeout options t evs :
  frames options <> 0 ->
  forall st, run_loop (set_timeout t options) evs st = run_loop options evs st.
Proof.
  intros Hf. induction evs as [|ev evs IH]; intros st; [reflexivity|].
  cbn [run_loop]. rewrite (loop_body_ignores_timeout _ _ _ _ Hf).
  destruct (loop_body options ev st); auto.
Qed.

(** C6 (as amended).  Without a frame limit and with a timeout other than
    zero, the loop returns for the elapsed timeout at the first completed
    request whose time since [start_time] is strictly greater than the
    timeout; at a completed request whose elapsed time is less than or
    equal to it, and always when the timeout is zero, it does not.  With
    a frame limit the loop never returns for the elapsed timeout and runs
    the same whatever the timeout is. *)
Theorem elapsed_timeout_is_strict (options : VideoOptions)
    (evs : list Event) (st0 : RunState) :
  (frames options = 0 ->
   forall st signals c,
     run_loop options evs st0 = Waiting st ->
     let ev := {| arrivals := signals; msg := MsgRequestComplete c |} in
     (timeout options <> 0 ->
      timeout options < now c - start_time st ->
      forall rest, exists st',
        run_loop options (evs ++ ev :: rest) st0 = Returned ElapsedTimeout st')
     /\ (timeout options = 0 \/ now c - start_time st <= timeout options ->
         forall st',
           run_loop options (evs ++ [ev]) st0 <> Returned ElapsedTimeout st'))
  /\ (frames options <> 0 ->
      (forall st', run_loop options evs st0 <> Returned ElapsedTimeout st')
      /\ forall t,
           run_loop (set_timeout t options) evs st0 = run_loop options evs st0).
Proof.
  split.
  - intros Hf st signals c Hrun ev. split.
    + intros Ht Hgt rest.
      destruct (proj2 (loop_body_elapsed_timeout options ev st)) as [st' Hbody].
      { exists c. repeat split; assumption. }
      exists st'. rewrite run_loop_app, Hrun. cbn [run_loop].
      now rewrite Hbody.
    + intros Hle st' Hret. rewrite run_loop_app, Hrun in Hret.
      cbn [run_loop] in Hret.
      destruct (loop_body options ev st) as [st1|cause st1|w st1] eqn:Hbody;
        try discriminate Hret.
      injection Hret as -> ->.
      destruct (proj1 (loop_body_elapsed_timeout options ev st))
        as (c' & Hc & _ & Ht & Hgt); [now exists st'|].
      injection Hc as <-. lia.
  - intros Hf. split.
    + intros st' Hret.
      apply run_loop_elapsed_timeout in Hret. tauto.
    + intros t. now apply run_loop_ignores_timeout.
Qed.

(** C6, the claim as stated fails: with a timeout of five seconds and no
    frame limit, a completed request that arrives exactly five seconds
    after [start_time] is passed to the encoder and the loop goes on. *)
Lemma elapsed_equal_to_timeout_goes_on :
  let options := {| codec := "YUV420"; frames := 0; timeout := 5000000000;
                    keypress := false; signal := false |} in
  let c := {| stdin_poll := NotReady; now := 5000001000;
              encode_ok := true |} in
  timeout options <= now c - start_time (startup options 1000)
  /\ exists st,
       event_loop options 1000
         [{| arrivals := []; msg := MsgRequestComplete c |}] = Waiting st
       /\ times EncodeBuffer (trace st) = 1%nat.
Proof.
  split; [vm_compute; discriminate|].
  eexists. split; vm_compute; reflexivity.
Qed.

Lemma elapsed_timeout_is_strict_witness :
  let options := {| codec := "YUV420"; frames := 0; timeout := 5000000000;
                    keypress := false; signal := false |} in
  let late := {| arrivals := [];
                 msg := MsgRequestComplete
                          {| stdin_poll := NotReady; now := 5000001001;
                             encode_ok := true |} |} in
  exists st', event_loop options 1000 [late] = Returned ElapsedTimeout st'.
Proof.
  intros options late.
  destruct (elapsed_timeout_is_strict options [] (startup options 1000))
    as [Hnolimit _].
  destruct (Hnolimit eq_refl (startup options 1000) []
              {| stdin_poll := NotReady; now := 5000001001;
                 encode_ok := true |} eq_refl) as [Hexit _].
  apply (Hexit ltac:(discriminate) ltac:(vm_compute; reflexivity) []).
Defined.

(** *** Frame limit *)

(** With nothing pending, a poll that finds no stop key on standard input
    returns no stop key and leaves nothing pending. *)
Lemma quiet_poll options p st :
  signal_received st = 0 ->
  match p with
  | NotReady => true
  | Line first _ =>
      negb (char_to_int first =? key_x) && negb (char_to_int first =? key_X)
  end = true ->
  (fst (get_key_or_signal options p st) =? key_x) = false
  /\ (fst (get_key_or_signal options p st) =? key_X) = false
  /\ signal_received (snd (get_key_or_signal options p st)) = 0.
Proof.
  intros Hsig Hp. unfold get_key_or_signal. rewrite Hsig.
  change (0 =? SIGINT) with false. change (0 =? SIGUSR1) with false.
  change ((0 =? SIGUSR2) || (0 =? SIGPIPE)) with false. cbv iota zeta.
  assert ((match p with
           | Line first _ => char_to_int first
           | NotReady => key_none
           end =? key_x) = false
          /\ (match p with
              | Line first _ => char_to_int first
              | NotReady => key_none
              end =? key_X) = false) as [Hx HX].
  { destruct p as [|first rest]; [split; reflexivity|].
    apply andb_true_iff in Hp. destruct Hp as [H1 H2].
    apply negb_true_iff in H1, H2. now split. }
  destruct (keypress options), (signal options); cbn [fst snd];
    repeat split; auto.
Qed.

(** One iteration of the undisturbed run, below and at the frame limit. *)
Lemma quiet_iteration options ev st :
  frames options <> 0 ->
  accepted_quietly ev = true ->
  signal_received st = 0 ->
  (count st < frames options ->
   exists st', loop_body options ev st = EndOfBody st'
               /\ count st' = count st /\ signal_received st' = 0)
  /\ (frames options <= count st ->
      exists st', loop_body options ev st = Return FrameCountReached st').
Proof.
  intros Hf Hquiet Hsig.
  destruct ev as [signals m]. unfold accepted_quietly in Hquiet.
  cbn [arrivals msg] in Hquiet.
  destruct signals as [|n signals]; [|discriminate Hquiet].
  destruct m as [ | |c| ]; try discriminate Hquiet.
  apply andb_true_iff in Hquiet. destruct Hquiet as [Hok Hp].
  rewrite loop_body_request_complete. cbv zeta.
  destruct (decision_state_fields options [] (stdin_poll c) st) as (Hc & _).
  cbv zeta in Hc. rewrite Hc. clear Hc.
  change (deliver_signals [] st) with st.
  destruct (quiet_poll options (stdin_poll c) st Hsig Hp) as (Hx & HX & Hs).
  rewrite Hx, HX, Hok.
  destruct (Z.eqb_spec (frames options) 0) as [H0|_]; [contradiction|].
  cbn [andb negb orb]. rewrite !orb_false_r.
  split; intros Hcount.
  - destruct (Z.geb_spec (count st) (frames options)) as [Hge|_]; [lia|].
    eexists. split; [reflexivity|].
    destruct (get_key_or_signal_fields options (stdin_poll c) st)
      as (Hc2 & _ & _).
    cbv zeta in Hc2.
    destruct (_ =? key_newline); cbn; auto.
  - destruct (Z.geb_spec (count st) (frames options)) as [_|Hlt]; [|lia].
    eexists. reflexivity.
Qed.

(** The undisturbed run from a state inside the loop: it goes on while the
    events do not carry [count] past the limit, one [EncodeBuffer] per
    event and no [StopCamera], and returns at the event that finds [count]
    at the limit, with one [StopCamera] more. *)
Lemma quiet_run options evs :
  0 < frames options < 2 ^ 32 ->
  forallb accepted_quietly evs = true ->
  forall st,
    signal_received st = 0 ->
    0 <= count st <= frames options ->
    (count st + Z.of_nat (length evs) <= frames options ->
     exists st',
       run_loop options evs st = Waiting st'
       /\ times EncodeBuffer (trace st')
          = (times EncodeBuffer (trace st) + length evs)%nat
       /\ times StopCamera (trace st') = times StopCamera (trace st))
    /\ (frames options < count st + Z.of_nat (length evs) ->
        exists st',
          run_loop options evs st = Returned FrameCountReached st'
          /\ Z.of_nat (times EncodeBuffer (trace st'))
             = Z.of_nat (times EncodeBuffer (trace st))
               + (frames options - count st)
          /\ times StopCamera (trace st') = S (times StopCamera (trace st))).
Proof.
  intros HF. induction evs as [|ev evs IH]; intros Hquiet st Hsig Hcount.
  - cbn [length run_loop]. split; [|lia].
    intros _. exists st. split; [reflexivity|]. split; [lia|reflexivity].
  - cbn [forallb] in Hquiet. apply andb_true_iff in Hquiet.
    destruct Hquiet as [Hev Hevs].
    destruct (quiet_iteration options ev st ltac:(lia) Hev Hsig)
      as [Hbelow Hat].
    pose proof (loop_body_device_calls options ev st EncodeBuffer eq_refl)
      as Hcalls.
    pose proof (loop_body_device_calls options ev st StopCamera eq_refl)
      as Hstops.
    cbn [run_loop length].
    destruct (Z.lt_ge_cases (count st) (frames options)) as [Hlt|Hge].
    + destruct (Hbelow Hlt) as (st1 & Hbody & Hc1 & Hs1).
      rewrite Hbody in *.
      assert (count (for_increment st1) = count st + 1) as Hinc.
      { cbn. rewrite Hc1. apply Z.mod_small. lia. }
      assert (times EncodeBuffer (trace (for_increment st1))
              = S (times EncodeBuffer (trace st))
              /\ times StopCamera (trace (for_increment st1))
                 = times StopCamera (trace st)) as [Henc Hstop].
      { cbn [for_increment set_count trace]. rewrite Hcalls, Hstops.
        unfold accepted_quietly in Hev.
        destruct (arrivals ev); [|discriminate Hev].
        destruct (msg ev); try discriminate Hev.
        change (times EncodeBuffer [EncodeBuffer; ShowPreview]) with 1%nat.
        change (times StopCamera [EncodeBuffer; ShowPreview]) with 0%nat.
        lia. }
      destruct (IH Hevs (for_increment st1) Hs1 ltac:(lia)) as [IHgo IHret].
      rewrite Hinc, Henc, Hstop in *. split; intros Hlen.
      * destruct IHgo as (st' & Hrun & Ht & Hsc); [lia|].
        exists st'. split; [exact Hrun|]. split; [lia|exact Hsc].
      * destruct IHret as (st' & Hrun & Ht & Hsc); [lia|].
        exists st'. split; [exact Hrun|]. split; [lia|exact Hsc].
    + destruct (Hat Hge) as (st1 & Hbody). rewrite Hbody in *.
      split; intros Hlen; [lia|].
      exists st1. split; [reflexivity|].
      destruct Hcalls as (before & Htrace & Hbefore).
      destruct Hstops as (before' & Htrace' & Hbefore').
      split.
      * rewrite Htrace, times_app, Hbefore.
        change (times EncodeBuffer [StopCamera; StopEncoder]) with 0%nat.
        lia.
      * rewrite Htrace', times_app, Hbefore'.
        change (times StopCamera [StopCamera; StopEncoder]) with 1%nat.
        lia.
Qed.

(** C2.  With a frame limit [F > 0] and an undisturbed stream of completed
    requests, all accepted by the encoder, [event_loop] is still waiting
    after [F] events or fewer, having passed each to [EncodeBuffer], and
    returns for the reached frame count as soon as there is one more: after
    exactly [F] frames have been passed to the encoder, with one
    [StopCamera] and one [StopEncoder], in that order, as its last calls. *)
Theorem frame_limit_exit (options : VideoOptions) (t0 : Z)
    (evs : list Event) :
  0 < frames options < 2 ^ 32 ->
  forallb accepted_quietly evs = true ->
  (Z.of_nat (length evs) <= frames options ->
   exists st,
     event_loop options t0 evs = Waiting st
     /\ times EncodeBuffer (trace st) = length evs)
  /\ (frames options < Z.of_nat (length evs) ->
      exists st,
        event_loop options t0 evs = Returned FrameCountReached st
        /\ Z.of_nat (times EncodeBuffer (trace st)) = frames options
        /\ times StopCamera (trace st) = 1%nat
        /\ times StopEncoder (trace st) = 1%nat
        /\ ends_with_shutdown (trace st)).
Proof.
  intros HF Hquiet. unfold event_loop.
  destruct (quiet_run options evs HF Hquiet (startup options t0) eq_refl)
    as [Hgo Hret]; [cbn; lia|].
  cbn [startup count] in Hgo, Hret. split; intros Hlen.
  - destruct Hgo as (st & Hrun & Ht & _); [lia|].
    exists st. split; [exact Hrun|]. rewrite Ht. reflexivity.
  - destruct Hret as (st & Hrun & Ht & Hsc); [lia|].
    exists st. split; [exact Hrun|].
    destruct (run_loop_return options evs _ _ _
                (recording_startup options t0) Hrun) as [Hshut _].
    split; [|split; [|split]].
    + rewrite Ht. cbn [trace]. change (times EncodeBuffer _) with 0%nat. lia.
    + rewrite Hsc. reflexivity.
    + destruct Hshut as (before & Htrace & Hnone).
      rewrite Htrace, times_app, Hnone. reflexivity.
    + exact Hshut.
Qed.

Lemma frame_limit_exit_witness :
  let options := {| codec := "YUV420"; frames := 10; timeout := 0;
                    keypress := false; signal := false |} in
  let frame := {| arrivals := [];
                  msg := MsgRequestComplete
                           {| stdin_poll := NotReady; now := 40;
                              encode_ok := true |} |} in
  (exists st,
     event_loop options 0 (repeat frame 10) = Waiting st
     /\ times EncodeBuffer (trace st) = 10%nat)
  /\ exists st,
       event_loop options 0 (repeat frame 11) = Returned FrameCountReached st
       /\ Z.of_nat (times EncodeBuffer (trace st)) = 10
       /\ times StopCamera (trace st) = 1%nat
       /\ times StopEncoder (trace st) = 1%nat
       /\ ends_with_shutdown (trace st).
Proof.
  intros options frame. split.
  - apply (frame_limit_exit options 0 (repeat frame 10));
      [vm_compute; split; [reflexivity | reflexivity]
      | reflexivity
      | vm_compute; discriminate].
  - apply (frame_limit_exit options 0 (repeat frame 11));
      [vm_compute; split; [reflexivity | reflexivity]
      | reflexivity
      | vm_compute; reflexivity].
Defined.

(* ===================================================================== *)
(** ** Further properties of the parameter resolver *)
(* ===================================================================== *)

(** X1.  A stored integer between 0 and [max] is returned as it is and
    without a warning whatever [min] is, also when it lies below [min]:
    the lower bound the bounded overload enforces is 0. *)
Theorem bounded_lookup_in_range_any_min (cfg : Config) (parameter : string)
    (defaultValue min max value : Z) :
  cfg !! parameter = Some (TypeInt value) ->
  0 <= value <= max ->
  _getValue_bounded cfg parameter defaultValue min max = (Returns value, []).
Proof.
  intros Hstored Hrange.
  rewrite (_getValue_bounded_stored _ _ _ _ _ _ Hstored).
  destruct (Z.gtb_spec value max); [lia|].
  destruct (Z.ltb_spec value 0); [lia|reflexivity].
Qed.

Lemma bounded_lookup_in_range_any_min_witness :
  _getValue_bounded {[ "sharpness" := TypeInt 3 ]} "sharpness" 20 10 50
    = (Returns 3, []).
Proof.
  apply (bounded_lookup_in_range_any_min
           {[ "sharpness" := TypeInt 3 ]} "sharpness" 20 10 50 3);
    [reflexivity | lia].
Defined.

(** X2.  On a stored integer and with [max] not negative, the bounded
    overload returns a value between 0 and the larger of [max] and 100; it
    is the stored value, 0 or 100, and a warning is written exactly when
    the stored value is outside [0, max]. *)
Theorem bounded_lookup_result_range (cfg : Config) (parameter : string)
    (defaultValue min max value : Z) :
  cfg !! parameter = Some (TypeInt value) ->
  0 <= max ->
  exists result log,
    _getValue_bounded cfg parameter defaultValue min max
      = (Returns result, log)
    /\ 0 <= result <= Z.max max 100
    /\ (result = value \/ result = 0 \/ result = 100)
    /\ (log = [] <-> 0 <= value <= max)
    /\ (log <> [] -> log = [InvalidValue parameter value]).
Proof.
  intros Hstored Hmax.
  rewrite (_getValue_bounded_stored _ _ _ _ _ _ Hstored).
  destruct (Z.gtb_spec value max) as [Hgt|Hle].
  - eexists _, _. split; [reflexivity|]. repeat split; try lia; auto;
      try discriminate.
  - destruct (Z.ltb_spec value 0) as [Hneg|Hpos].
    + eexists _, _. split; [reflexivity|]. repeat split; try lia; auto;
        try discriminate.
    + eexists _, _. split; [reflexivity|]. repeat split; try lia; auto.
      intros H. now contradiction H.
Qed.

Lemma bounded_lookup_result_range_witness :
  exists result log,
    _getValue_bounded {[ "contrast" := TypeInt 250 ]} "contrast" 1 0 200
      = (Returns result, log)
    /\ 0 <= result <= Z.max 200 100.
Proof.
  assert (({[ "contrast" := TypeInt 250 ]} : Config) !! "contrast"
          = Some (TypeInt 250)) as Hstored by reflexivity.
  destruct (bounded_lookup_result_range
              {[ "contrast" := TypeInt 250 ]} "contrast" 1 0 200 250
              Hstored ltac:(lia))
    as (result & log & Hcall & Hrange & _).
  exists result, log. split; [exact Hcall | exact Hrange].
Defined.

(** X3.  When the name is absent the bounded overload returns the default
    as given, without comparing it with the bounds and without a warning;
    when the name holds a setting that is not an integer, the type
    exception leaves the function and nothing is written. *)
Theorem bounded_lookup_absent_or_mistyped (cfg : Config) (parameter : string)
    (defaultValue min max : Z) :
  (cfg !! parameter = None ->
   _getValue_bounded cfg parameter defaultValue min max
     = (Returns defaultValue, []))
  /\ (forall s, cfg !! parameter = Some s ->
                (forall v, s <> TypeInt v) ->
                _getValue_bounded cfg parameter defaultValue min max
                  = (Throws (SettingTypeException parameter), [])).
Proof.
  unfold _getValue_bounded, cfg_lookup. split.
  - intros ->. reflexivity.
  - intros s -> Hs. destruct s as [v| | | | ]; try reflexivity.
    now contradiction (Hs v).
Qed.

Lemma bounded_lookup_absent_or_mistyped_witness :
  _getValue_bounded ∅ "sharpness" 500 0 100 = (Returns 500, [])
  /\ _getValue_bounded {[ "sharpness" := TypeFloat (S754_zero false) ]}
       "sharpness" 500 0 100
     = (Throws (SettingTypeException "sharpness"), []).
Proof.
  split.
  - apply (bounded_lookup_absent_or_mistyped ∅ "sharpness" 500 0 100).
    reflexivity.
  - apply (bounded_lookup_absent_or_mistyped
             {[ "sharpness" := TypeFloat (S754_zero false) ]}
             "sharpness" 500 0 100) with (s := TypeFloat (S754_zero false));
      [reflexivity | discriminate].
Defined.

(** X4.  What is stored under a name is what the overload of its type
    reads back, whatever the default: the integer and the string as
    stored, the double rounded to a [float]; and once the name is removed
    the default comes back. *)
Theorem stored_value_round_trip (cfg : Config) (parameter : string)
    (v : Z) (d : spec_float) (s : string)
    (di : Z) (df : spec_float) (ds : string) :
  _getValue_int (<[parameter := TypeInt v]> cfg) parameter di = Returns v
  /\ _getValue_float (<[parameter := TypeFloat d]> cfg) parameter df
     = Returns (narrow_to_float d)
  /\ _getValue_string (<[parameter := TypeString s]> cfg) parameter ds
     = Returns s
  /\ _getValue_int (delete parameter cfg) parameter di = Returns di
  /\ _getValue_float (delete parameter cfg) parameter df = Returns df
  /\ _getValue_string (delete parameter cfg) parameter ds = Returns ds.
Proof.
  unfold _getValue_int, _getValue_float, _getValue_string, cfg_lookup.
  rewrite !lookup_insert_eq, !lookup_delete_eq. repeat split.
Qed.



(* ===================================================================== *)
(** ** Further properties of the signal bridge *)
(* ===================================================================== *)

(** X6.  Of the signals that arrive between two polls only the last one
    is kept: [signal_received] is the last signal whatever came before,
    the earlier ones leave nothing but their log lines, and the loop's own
    variables are not touched. *)
Theorem last_signal_wins (signals : list Z) (last : Z) (st : RunState) :
  let st' := deliver_signals (signals ++ [last]) st in
  signal_received st' = last
  /\ count st' = count st
  /\ start_time st' = start_time st
  /\ trace st'
     = (trace st
        ++ map (fun n => LOG 1 (ReceivedSignal n)) (signals ++ [last]))%list.
Proof.
  cbv zeta.
  destruct (deliver_signals_fields (signals ++ [last]) st) as (Hc & Hs & Ht).
  split; [|now repeat split].
  unfold deliver_signals. rewrite foldl_app. reflexivity.
Qed.



(* ===================================================================== *)
(** ** Further properties of the capture orchestrator *)
(* ===================================================================== *)

(** *** Counting calls over a run *)

(** The device calls of a pass through the body, counted. *)
Lemma loop_body_times options ev st a :
  device_call a = true ->
  times a (trace (step_state (loop_body options ev st)))
  = (times a (trace st)
     + times a (device_calls_of (msg ev) (loop_body options ev st)))%nat.
Proof.
  intros Ha.
  pose proof (loop_body_device_calls options ev st a Ha) as H.
  destruct (loop_body options ev st) as [st'|cause st'|w st'];
    cbn [step_state device_calls_of].
  - exact H.
  - destruct cause; try (destruct H as (before & -> & <-); apply times_app).
    rewrite H. cbn. lia.
  - rewrite H. cbn. lia.
Qed.

(** A property of the state that every pass through the body keeps, the
    iteration expression included, holds of the state in which a run from
    a state that has it stops or waits. *)
Lemma run_loop_invariant options (P : RunState -> Prop) :
  (forall st, P st -> P (for_increment st)) ->
  (forall ev st, P st -> P (step_state (loop_body options ev st))) ->
  forall evs st, P st -> P (final_state (run_loop options evs st)).
Proof.
  intros Hinc Hstep. induction evs as [|ev evs IH]; intros st HP;
    [exact HP|].
  cbn [run_loop]. pose proof (Hstep ev st HP) as H.
  destruct (loop_body options ev st) as [st'|cause st'|w st']; cbn in H |- *;
    auto.
Qed.

(** The number of times a device call that the loop never makes occurs in
    the trace does not change over a run. *)
Lemma run_loop_never_calls options a :
  device_call a = true ->
  a <> StopCamera -> a <> StartCamera -> a <> StopEncoder ->
  a <> EncodeBuffer -> a <> ShowPreview ->
  forall evs st,
    times a (trace (final_state (run_loop options evs st)))
    = times a (trace st).
Proof.
  intros Ha H1 H2 H3 H4 H5 evs st.
  apply (run_loop_invariant options
           (fun s => times a (trace s) = times a (trace st)));
    [auto | | reflexivity].
  intros ev s Hs. rewrite (loop_body_times _ _ _ _ Ha), Hs.
  assert (forall l, Forall (fun b => b <> a) l -> times a l = 0%nat) as Hnone.
  { induction 1 as [|b l Hb _ IH]; [reflexivity|].
    unfold times in *. now rewrite count_occ_cons_neq. }
  rewrite (Hnone (device_calls_of (msg ev) (loop_body options ev s)));
    [lia|].
  destruct (loop_body options ev s) as [s'|[]|]; destruct (msg ev);
    cbn [device_calls_of]; repeat constructor; congruence.
Qed.

(** X8.  Whatever the messages, signals and keys, in the state in which
    [event_loop] waits, has returned or has thrown, [ShowPreview] has been
    called as often as [EncodeBuffer]: every buffer passed to the encoder,
    accepted or deferred, is passed to the preview as well. *)
Theorem preview_follows_encode (options : VideoOptions) (t0 : Z)
    (evs : list Event) :
  let st := final_state (event_loop options t0 evs) in
  times ShowPreview (trace st) = times EncodeBuffer (trace st).
Proof.
  cbv zeta. unfold event_loop.
  apply (run_loop_invariant options
           (fun s => times ShowPreview (trace s)
                     = times EncodeBuffer (trace s)));
    [auto | | reflexivity].
  intros ev s Hs.
  rewrite (loop_body_times _ _ _ ShowPreview eq_refl),
          (loop_body_times _ _ _ EncodeBuffer eq_refl), Hs.
  f_equal.
  destruct (loop_body options ev s) as [s'|[]|]; destruct (msg ev);
    reflexivity.
Qed.

(** X9.  Whatever the messages, signals and keys, a run of [event_loop]
    opens the camera, configures the video pipeline and starts the encoder
    exactly once, and configures it with the flags of the codec option and
    no others. *)
Theorem started_once (options : VideoOptions) (t0 : Z) (evs : list Event) :
  let st := final_state (event_loop options t0 evs) in
  times OpenCamera (trace st) = 1%nat
  /\ times StartEncoder (trace st) = 1%nat
  /\ forall flags,
       times (ConfigureVideo flags) (trace st)
       = if bool_decide (flags = get_colourspace_flags (codec options))
         then 1%nat else 0%nat.
Proof.
  cbv zeta. unfold event_loop.
  split; [|split; [|intros flags]];
    rewrite run_loop_never_calls by (reflexivity || discriminate).
  - reflexivity.
  - reflexivity.
  - cbn [startup trace]. unfold times. cbn [count_occ].
    destruct (Action_eq_dec OpenCamera (ConfigureVideo flags));
      [discriminate|].
    destruct (Action_eq_dec StartEncoder (ConfigureVideo flags));
      [discriminate|].
    destruct (Action_eq_dec StartCamera (ConfigureVideo flags));
      [discriminate|].
    destruct (Action_eq_dec
                (ConfigureVideo (get_colourspace_flags (codec options)))
                (ConfigureVideo flags)) as [Heq|Hne];
      case_bool_decide; try reflexivity; congruence.
Qed.

(** X10.  As long as [event_loop] has not returned, also when it is left
    by the exception for an unrecognised message, the encoder has never
    been stopped and the camera is started: every [StopCamera] made so far
    was followed by a [StartCamera]. *)
Theorem running_until_return (options : VideoOptions) (t0 : Z)
    (evs : list Event) :
  match event_loop options t0 evs with
  | Waiting st | Threw _ st =>
      times StopEncoder (trace st) = 0%nat
      /\ times StartCamera (trace st) = S (times StopCamera (trace st))
  | Returned _ _ => True
  end.
Proof.
  unfold event_loop.
  generalize (recording_startup options t0).
  generalize (startup options t0). induction evs as [|ev evs IH];
    intros st Hrec; [exact Hrec|].
  cbn [run_loop].
  destruct (loop_body options ev st) as [st'|cause st'|w st'] eqn:Hbody.
  - apply IH. exact (loop_body_keeps_recording _ _ _ _ Hrec Hbody).
  - exact I.
  - destruct Hrec as [Henc Hcam].
    pose proof (loop_body_device_calls options ev st StopEncoder eq_refl) as H1.
    pose proof (loop_body_device_calls options ev st StartCamera eq_refl) as H2.
    pose proof (loop_body_device_calls options ev st StopCamera eq_refl) as H3.
    rewrite Hbody in H1, H2, H3. split; congruence.
Qed.

(** *** Keys from signals *)



Lemma no_key_without_modes options p st :
  keypress options = false ->
  signal options = false ->
  signal_received st <> SIGINT ->
  get_key_or_signal options p st = (0, st).
Proof.
  intros Hk Hs Hint. unfold get_key_or_signal. rewrite Hk, Hs.
  destruct (Z.eqb_spec (signal_received st) SIGINT); [contradiction|].
  reflexivity.
Qed.

(** *** Stop keys *)

(** A stop key ends the iteration with the shutdown calls. *)
Lemma loop_body_stop_key options signals c st :
  let key := fst (get_key_or_signal options (stdin_poll c)
                    (deliver_signals signals st)) in
  key = key_x \/ key = key_X ->
  exists cause st',
    loop_body options {| arrivals := signals; msg := MsgRequestComplete c |} st
      = Return cause st'
    /\ cause <> UpstreamQuit
    /\ exists before : list Action,
         trace st' = (before ++ [StopCamera; StopEncoder])%list.
Proof.
  cbv zeta. intros Hkey.
  rewrite loop_body_request_complete. cbv zeta.
  assert ((fst (get_key_or_signal options (stdin_poll c)
                  (deliver_signals signals st)) =? key_x)
          || (fst (get_key_or_signal options (stdin_poll c)
                     (deliver_signals signals st)) =? key_X) = true) as Hstop.
  { destruct Hkey as [-> | ->]; [reflexivity|]. apply orb_true_r. }
  rewrite <- !orb_assoc, Hstop, !orb_true_r.
  eexists _, _. split; [reflexivity|]. split.
  - unfold termination_cause.
    destruct (_ && _ && _); [discriminate|]. destruct (_ && _); discriminate.
  - eexists. apply trace_emit.
Qed.



(** X12.  With interactive-key mode on, nothing pending and no signal
    arriving, a line on standard input that starts with ['x'] or ['X']
    ends the loop at the next completed request: the buffer is not passed
    on, [StopCamera] and [StopEncoder] are called and the loop returns.
    With interactive-key mode off (and signal mode off) the same line is
    not read and the buffer is passed to the encoder. *)
Theorem typed_stop_key_ends_loop (options : VideoOptions) (c : Capture)
    (first : ascii) (rest : string) (st : RunState) :
  signal_received st = 0 ->
  stdin_poll c = Line first rest ->
  first = "x"%char \/ first = "X"%char ->
  let ev := {| arrivals := []; msg := MsgRequestComplete c |} in
  (keypress options = true ->
   exists cause st',
     loop_body options ev st = Return cause st'
     /\ cause <> UpstreamQuit
     /\ exists before : list Action,
          trace st' = (before ++ [StopCamera; StopEncoder])%list)
  /\ (keypress options = false -> signal options = false ->
      frames options = 0 -> timeout options = 0 ->
      exists st',
        loop_body options ev st = EndOfBody st'
        /\ times EncodeBuffer (trace st') = S (times EncodeBuffer (trace st))).
Proof.
  intros Hsig Hline Hfirst ev. split.
  - intros Hmode. apply loop_body_stop_key. cbv zeta.
    change (deliver_signals [] st) with st.
    rewrite get_key_or_signal_no_interrupt, Hmode, Hline, Hsig
      by (rewrite Hsig; discriminate).
    destruct (signal options); destruct Hfirst as [-> | ->]; auto.
  - intros Hkey Hmode Hf Ht.
    pose proof (loop_body_device_calls options ev st EncodeBuffer eq_refl)
      as Hcalls.
    unfold ev in *. rewrite loop_body_request_complete in *. cbv zeta in *.
    change (deliver_signals [] st) with st in *.
    rewrite (no_key_without_modes options (stdin_poll c) st Hkey Hmode) in *
      by (rewrite Hsig; discriminate).
    cbn [fst snd] in *. rewrite Hf, Ht in *.
    change (0 =? key_newline) with false in *.
    change (0 =? key_x) with false in *.
    change (0 =? key_X) with false in *.
    cbn [Z.eqb negb andb orb] in *.
    eexists. split; [reflexivity|]. rewrite Hcalls. cbn [msg].
    change (times EncodeBuffer [EncodeBuffer; ShowPreview]) with 1%nat. lia.
Qed.

Lemma typed_stop_key_ends_loop_witness :
  let options := {| codec := "YUV420"; frames := 0; timeout := 0;
                    keypress := true; signal := false |} in
  let c := {| stdin_poll := Line "X" ""; now := 40; encode_ok := true |} in
  exists cause st',
    loop_body options {| arrivals := []; msg := MsgRequestComplete c |}
              (startup options 0)
      = Return cause st'
    /\ cause <> UpstreamQuit
    /\ exists before : list Action,
         trace st' = (before ++ [StopCamera; StopEncoder])%list.
Proof.
  intros options c.
  apply (typed_stop_key_ends_loop options c "X" "" (startup options 0));
    [reflexivity | reflexivity | right; reflexivity | reflexivity].
Defined.

(** *** Messages that are not completed requests *)

(** X13.  A message of an unrecognised type makes the loop leave by the
    exception ["unrecognised message!"] at once: no call is made to the
    camera or the encoder in that iteration, so no shutdown is performed,
    and the counter and the clock anchor are as they were. *)
Theorem unrecognised_message_throws (options : VideoOptions)
    (evs rest : list Event) (signals : list Z) (st0 st : RunState) :
  run_loop options evs st0 = Waiting st ->
  run_loop options (evs ++ {| arrivals := signals; msg := MsgUnrecognised |}
                        :: rest) st0
  = Threw "unrecognised message!" (deliver_signals signals st)
  /\ (forall a, device_call a = true ->
                times a (trace (deliver_signals signals st))
                = times a (trace st))
  /\ count (deliver_signals signals st) = count st
  /\ start_time (deliver_signals signals st) = start_time st.
Proof.
  intros Hrun. rewrite run_loop_app, Hrun.
  destruct (deliver_signals_fields signals st) as (Hc & Hs & _).
  split; [reflexivity|]. split; [|now split].
  intros a Ha. now apply deliver_signals_device_calls.
Qed.

Lemma unrecognised_message_throws_witness :
  let options := {| codec := "YUV420"; frames := 0; timeout := 0;
                    keypress := false; signal := false |} in
  event_loop options 0 [{| arrivals := []; msg := MsgUnrecognised |}]
  = Threw "unrecognised message!" (startup options 0).
Proof.
  intros options.
  apply (unrecognised_message_throws options [] [] []
           (startup options 0) (startup options 0) eq_refl).
Defined.

(** A run of device timeouts from a state inside the loop. *)
Lemma timeouts_run options evs :
  forallb is_timeout evs = true ->
  forall st,
  0 <= count st < 2 ^ 32 ->
  exists st',
    run_loop options evs st = Waiting st'
    /\ count st' = (count st + Z.of_nat (length evs)) mod 2 ^ 32
    /\ start_time st' = start_time st
    /\ times StopCamera (trace st')
       = (times StopCamera (trace st) + length evs)%nat
    /\ times StartCamera (trace st')
       = (times StartCamera (trace st) + length evs)%nat
    /\ times EncodeBuffer (trace st') = times EncodeBuffer (trace st).
Proof.
  induction evs as [|ev evs IH]; intros Hall st Hcount.
  - exists st. cbn [length run_loop]. split; [reflexivity|].
    rewrite Z.add_0_r, Z.mod_small by exact Hcount. repeat split; lia.
  - cbn [forallb] in Hall. apply andb_true_iff in Hall.
    destruct Hall as [Hev Hevs].
    destruct ev as [signals m]. unfold is_timeout in Hev. cbn [msg] in Hev.
    destruct m; try discriminate Hev. clear Hev.
    cbn [run_loop loop_body arrivals msg].
    set (st1 := emit _ (deliver_signals signals st)).
    destruct (deliver_signals_fields signals st) as (Hc & Hs & _).
    destruct (IH Hevs (for_increment st1)) as (st' & Hrun & Hc' & Hs' & H1 & H2 & H3).
    { cbn. apply Z.mod_pos_bound. lia. }
    exists st'. split; [exact Hrun|].
    assert (forall a, device_call a = true ->
                      times a (trace (for_increment st1))
                      = (times a (trace st)
                         + times a [StopCamera; StartCamera])%nat) as Hcalls.
    { intros a Ha. cbn [for_increment set_count trace]. unfold st1.
      rewrite trace_emit, times_app, (deliver_signals_device_calls _ _ _ Ha).
      change [LOG_ERROR DeviceTimeout; StopCamera; StartCamera]
        with ([LOG_ERROR DeviceTimeout] ++ [StopCamera; StartCamera])%list.
      now rewrite times_app, (times_log_error _ _ Ha). }
    rewrite Hc', Hs', H1, H2, H3, !Hcalls by reflexivity.
    cbn [for_increment set_count count start_time length]. unfold st1.
    cbn [emit count start_time]. rewrite Hc, Hs.
    change (times StopCamera [StopCamera; StartCamera]) with 1%nat.
    change (times StartCamera [StopCamera; StartCamera]) with 1%nat.
    change (times EncodeBuffer [StopCamera; StartCamera]) with 0%nat.
    repeat split; try lia.
    rewrite Zplus_mod_idemp_l. f_equal. lia.
Qed.

(** X14.  Device timeouts alone never end the loop: after any number of
    Timeout messages [event_loop] is still waiting, the camera has been
    stopped and started again once per message, nothing has been passed
    to the encoder, [start_time] is the one taken at start-up, and the
    counter has advanced by one per message (modulo [2^32]). *)
Theorem timeouts_never_end_loop (options : VideoOptions) (t0 : Z)
    (evs : list Event) :
  forallb is_timeout evs = true ->
  exists st,
    event_loop options t0 evs = Waiting st
    /\ times StopCamera (trace st) = length evs
    /\ times StartCamera (trace st) = S (length evs)
    /\ times EncodeBuffer (trace st) = 0%nat
    /\ start_time st = t0
    /\ count st = Z.of_nat (length evs) mod 2 ^ 32.
Proof.
  intros Hall. unfold event_loop.
  destruct (timeouts_run options evs Hall (startup options t0))
    as (st & Hrun & Hc & Hs & H1 & H2 & H3); [cbn; lia|].
  exists st. split; [exact Hrun|].
  rewrite H1, H2, H3, Hs, Hc. repeat split.
Qed.

Lemma timeouts_never_end_loop_witness :
  let options := {| codec := "YUV420"; frames := 2; timeout := 1;
                    keypress := true; signal := true |} in
  exists st,
    event_loop options 0 (repeat {| arrivals := [2]; msg := MsgTimeout |} 5)
      = Waiting st
    /\ times StopCamera (trace st) = 5%nat
    /\ times StartCamera (trace st) = 6%nat
    /\ times EncodeBuffer (trace st) = 0%nat
    /\ start_time st = 0
    /\ count st = 5.
Proof.
  intros options.
  apply (timeouts_never_end_loop options 0
           (repeat {| arrivals := [2]; msg := MsgTimeout |} 5)).
  reflexivity.
Defined.

(** *** Deferred encodes over a run *)

(** An undisturbed completed request that meets neither the timeout nor
    the frame limit is passed to the encoder, and the counter and the
    clock anchor follow the encoder's answer. *)
Lemma undisturbed_iteration options c st :
  signal_received st = 0 ->
  match stdin_poll c with
  | NotReady => true
  | Line first _ =>
      negb (char_to_int first =? key_x) && negb (char_to_int first =? key_X)
  end = true ->
  (frames options =? 0) && negb (timeout options =? 0)
  && (now c - start_time st >? timeout options) = false ->
  negb (frames options =? 0) && (count st >=? frames options) = false ->
  exists st',
    loop_body options {| arrivals := []; msg := MsgRequestComplete c |} st
      = EndOfBody st'
    /\ signal_received st' = 0
    /\ count st' = (if encode_ok c then count st else 0)
    /\ start_time st' = (if encode_ok c then start_time st else now c)
    /\ times EncodeBuffer (trace st') = S (times EncodeBuffer (trace st)).
Proof.
  intros Hsig Hp Htime Hframes.
  pose proof (loop_body_device_calls options
                {| arrivals := []; msg := MsgRequestComplete c |} st
                EncodeBuffer eq_refl) as Hcalls.
  rewrite loop_body_request_complete in *. cbv zeta in *.
  destruct (decision_state_fields options [] (stdin_poll c) st) as (Hc & Hs).
  cbv zeta in Hc, Hs. rewrite Hc, Hs in *. clear Hc Hs.
  change (deliver_signals [] st) with st in *.
  destruct (quiet_poll options (stdin_poll c) st Hsig Hp) as (Hx & HX & Hs).
  rewrite Hx, HX, Htime, Hframes in *. cbn [orb] in *.
  eexists. split; [reflexivity|].
  destruct (get_key_or_signal_fields options (stdin_poll c) st)
    as (Hc2 & Hs2 & _).
  cbv zeta in Hc2, Hs2.
  split; [|split; [|split]].
  - destruct (encode_ok c), (_ =? key_newline); cbn; exact Hs.
  - destruct (encode_ok c), (_ =? key_newline); cbn; auto.
  - destruct (encode_ok c), (_ =? key_newline); cbn; auto.
  - rewrite Hcalls. cbn [msg].
    change (times EncodeBuffer [EncodeBuffer; ShowPreview]) with 1%nat. lia.
Qed.

(** With a frame limit set and reached, a completed request ends the loop
    for the frame count, whatever else holds in that iteration. *)
Lemma frame_limit_reached_returns options signals c st :
  frames options <> 0 ->
  frames options <= count st ->
  exists st',
    loop_body options {| arrivals := signals; msg := MsgRequestComplete c |} st
      = Return FrameCountReached st'
    /\ times EncodeBuffer (trace st') = times EncodeBuffer (trace st).
Proof.
  intros Hf Hcount.
  pose proof (loop_body_device_calls options
                {| arrivals := signals; msg := MsgRequestComplete c |} st
                EncodeBuffer eq_refl) as Hcalls.
  rewrite loop_body_request_complete in *. cbv zeta in *.
  destruct (decision_state_fields options signals (stdin_poll c) st)
    as (Hc & _).
  cbv zeta in Hc. rewrite Hc in *. clear Hc.
  destruct (Z.eqb_spec (frames options) 0) as [H0|_]; [contradiction|].
  destruct (Z.geb_spec (count st) (frames options)) as [_|Hlt]; [|lia].
  cbn [andb negb orb termination_cause] in *.
  eexists. split; [reflexivity|].
  destruct Hcalls as (before & -> & <-). rewrite times_app.
  change (times EncodeBuffer [StopCamera; StopEncoder]) with 0%nat. lia.
Qed.

Lemma deferred_quietly_inv ev :
  deferred_quietly ev = true ->
  exists c,
    ev = {| arrivals := []; msg := MsgRequestComplete c |}
    /\ encode_ok c = false
    /\ match stdin_poll c with
       | NotReady => true
       | Line first _ =>
           negb (char_to_int first =? key_x)
           && negb (char_to_int first =? key_X)
       end = true.
Proof.
  destruct ev as [[|n signals] [ | |c| ]]; try discriminate.
  unfold deferred_quietly. cbn [arrivals msg]. intros H.
  apply andb_true_iff in H. destruct H as [Hdef Hp].
  apply negb_true_iff in Hdef. now exists c.
Qed.

(** A run of deferred buffers under a frame limit of two or more. *)
Lemma deferred_run options evs :
  2 <= frames options ->
  forallb deferred_quietly evs = true ->
  forall st,
    signal_received st = 0 ->
    0 <= count st <= 1 ->
    exists st',
      run_loop options evs st = Waiting st'
      /\ 0 <= count st' <= 1
      /\ times EncodeBuffer (trace st')
         = (times EncodeBuffer (trace st) + length evs)%nat.
Proof.
  intros HF. induction evs as [|ev evs IH]; intros Hall st Hsig Hcount.
  - exists st. cbn. split; [reflexivity|]. split; lia.
  - cbn [forallb] in Hall. apply andb_true_iff in Hall.
    destruct Hall as [Hev Hevs].
    destruct (deferred_quietly_inv ev Hev) as (c & -> & Hdef & Hp).
    destruct (undisturbed_iteration options c st Hsig Hp)
      as (st1 & Hbody & Hs1 & Hc1 & _ & Henc).
    { destruct (Z.eqb_spec (frames options) 0); [lia|reflexivity]. }
    { destruct (Z.geb_spec (count st) (frames options)); [lia|].
      apply andb_false_r. }
    cbn [run_loop]. rewrite Hbody, Hdef in *.
    destruct (IH Hevs (for_increment st1)) as (st' & Hrun & Hc' & Henc').
    { exact Hs1. }
    { cbn. rewrite Hc1. change ((0 + 1) mod 2 ^ 32) with 1. lia. }
    exists st'. split; [exact Hrun|]. split; [exact Hc'|].
    rewrite Henc'. cbn [for_increment set_count trace length].
    rewrite Henc. lia.
Qed.

(** X15.  Under a frame limit of two or more, a run of completed requests
    that the encoder defers, with no signal and no stop key, never ends
    the loop: each buffer is passed to the encoder, the counter is put
    back every time and never gets past 1. *)
Theorem deferred_frames_never_reach_limit (options : VideoOptions) (t0 : Z)
    (evs : list Event) :
  2 <= frames options ->
  forallb deferred_quietly evs = true ->
  exists st,
    event_loop options t0 evs = Waiting st
    /\ 0 <= count st <= 1
    /\ times EncodeBuffer (trace st) = length evs.
Proof.
  intros HF Hall. unfold event_loop.
  destruct (deferred_run options evs HF Hall (startup options t0))
    as (st & Hrun & Hc & Henc); [reflexivity | cbn; lia |].
  exists st. split; [exact Hrun|]. split; [exact Hc|].
  rewrite Henc. reflexivity.
Qed.

Lemma deferred_frames_never_reach_limit_witness :
  let options := {| codec := "YUV420"; frames := 2; timeout := 0;
                    keypress := false; signal := false |} in
  let deferred t := {| arrivals := [];
                       msg := MsgRequestComplete
                                {| stdin_poll := NotReady; now := t;
                                   encode_ok := false |} |} in
  exists st,
    event_loop options 0 [deferred 40; deferred 80; deferred 120] = Waiting st
    /\ 0 <= count st <= 1
    /\ times EncodeBuffer (trace st) = 3%nat.
Proof.
  intros options deferred.
  apply (deferred_frames_never_reach_limit options 0
           [deferred 40; deferred 80; deferred 120]);
    [vm_compute; discriminate | reflexivity].
Defined.

(** X16.  Under a frame limit of 1 the deferral does not postpone the end:
    after one undisturbed completed request, accepted or deferred, the
    next completed request ends the loop for the frame count, so exactly
    one buffer has been passed to the encoder. *)
Theorem frame_limit_one_ignores_deferral (options : VideoOptions) (t0 : Z)
    (first : Event) (signals : list Z) (c : Capture) (rest : list Event) :
  frames options = 1 ->
  accepted_quietly first || deferred_quietly first = true ->
  exists st,
    event_loop options t0
      (first :: {| arrivals := signals; msg := MsgRequestComplete c |} :: rest)
      = Returned FrameCountReached st
    /\ times EncodeBuffer (trace st) = 1%nat.
Proof.
  intros HF Hfirst. unfold event_loop.
  assert (exists c1,
             first = {| arrivals := []; msg := MsgRequestComplete c1 |}
             /\ match stdin_poll c1 with
                | NotReady => true
                | Line ch _ =>
                    negb (char_to_int ch =? key_x)
                    && negb (char_to_int ch =? key_X)
                end = true) as (c1 & -> & Hp).
  { destruct first as [[|n l] [ | |c1| ]]; try discriminate Hfirst.
    exists c1. split; [reflexivity|].
    unfold accepted_quietly, deferred_quietly in Hfirst.
    cbn [arrivals msg] in Hfirst.
    destruct (encode_ok c1); cbn [negb andb orb] in Hfirst;
      rewrite ?orb_false_r in Hfirst; exact Hfirst. }
  destruct (undisturbed_iteration options c1 (startup options t0) eq_refl Hp)
    as (st1 & Hbody & _ & Hc1 & _ & Henc).
  { now rewrite HF. }
  { now rewrite HF. }
  cbn [run_loop]. rewrite Hbody.
  destruct (frame_limit_reached_returns options signals c (for_increment st1))
    as (st & Hret & Henc').
  { rewrite HF. discriminate. }
  { rewrite HF. cbn. rewrite Hc1.
    destruct (encode_ok c1); cbn; discriminate. }
  rewrite Hret. exists st. split; [reflexivity|].
  rewrite Henc'. cbn [for_increment set_count trace]. rewrite Henc.
  reflexivity.
Qed.

Lemma frame_limit_one_ignores_deferral_witness :
  let options := {| codec := "YUV420"; frames := 1; timeout := 0;
                    keypress := false; signal := false |} in
  let frame ok := {| arrivals := [];
                     msg := MsgRequestComplete
                              {| stdin_poll := NotReady; now := 40;
                                 encode_ok := ok |} |} in
  exists st,
    event_loop options 0 [frame false; frame true]
      = Returned FrameCountReached st
    /\ times EncodeBuffer (trace st) = 1%nat.
Proof.
  intros options frame.
  apply (frame_limit_one_ignores_deferral options 0 (frame false) []
           {| stdin_poll := NotReady; now := 40; encode_ok := true |} []);
    reflexivity.
Defined.

(** A run of deferred buffers without a frame limit, each arriving within
    the timeout of the one before. *)
Lemma paced_deferred_run options evs :
  frames options = 0 ->
  forallb deferred_quietly evs = true ->
  forall st,
    signal_received st = 0 ->
    paced (timeout options) (start_time st) evs = true ->
    exists st',
      run_loop options evs st = Waiting st'
      /\ times EncodeBuffer (trace st')
         = (times EncodeBuffer (trace st) + length evs)%nat.
Proof.
  intros HF. induction evs as [|ev evs IH]; intros Hall st Hsig Hpaced.
  - exists st. cbn. split; [reflexivity|lia].
  - cbn [forallb] in Hall. apply andb_true_iff in Hall.
    destruct Hall as [Hev Hevs].
    destruct (deferred_quietly_inv ev Hev) as (c & -> & Hdef & Hp).
    cbn [paced msg] in Hpaced. apply andb_true_iff in Hpaced.
    destruct Hpaced as [Hgap Hrest]. apply Z.leb_le in Hgap.
    destruct (undisturbed_iteration options c st Hsig Hp)
      as (st1 & Hbody & Hs1 & _ & Ht1 & Henc).
    { destruct (Z.gtb_spec (now c - start_time st) (timeout options));
        [lia|]. apply andb_false_r. }
    { now rewrite HF. }
    cbn [run_loop]. rewrite Hbody, Hdef in *.
    destruct (IH Hevs (for_increment st1)) as (st' & Hrun & Henc').
    { exact Hs1. }
    { cbn [for_increment set_count start_time]. now rewrite Ht1. }
    exists st'. split; [exact Hrun|].
    rewrite Henc'. cbn [for_increment set_count trace length].
    rewrite Henc. lia.
Qed.

(** X17.  Without a frame limit, while the encoder defers every buffer the
    timeout is measured from the previous completed request: a run of
    deferred requests, with no signal and no stop key, each arriving at
    most [timeout] after the one before (the first at most [timeout] after
    start-up), never ends the loop, however long it lasts in total. *)
Theorem deferral_restarts_timeout (options : VideoOptions) (t0 : Z)
    (evs : list Event) :
  frames options = 0 ->
  forallb deferred_quietly evs = true ->
  paced (timeout options) t0 evs = true ->
  exists st,
    event_loop options t0 evs = Waiting st
    /\ times EncodeBuffer (trace st) = length evs.
Proof.
  intros HF Hall Hpaced. unfold event_loop.
  destruct (paced_deferred_run options evs HF Hall (startup options t0))
    as (st & Hrun & Henc); [reflexivity | exact Hpaced |].
  exists st. split; [exact Hrun|]. rewrite Henc. reflexivity.
Qed.

Lemma deferral_restarts_timeout_witness :
  let options := {| codec := "YUV420"; frames := 0; timeout := 100;
                    keypress := false; signal := false |} in
  let deferred t := {| arrivals := [];
                       msg := MsgRequestComplete
                                {| stdin_poll := NotReady; now := t;
                                   encode_ok := false |} |} in
  exists st,
    event_loop options 0 [deferred 80; deferred 160; deferred 240] = Waiting st
    /\ times EncodeBuffer (trace st) = 3%nat.
Proof.
  intros options deferred.
  apply (deferral_restarts_timeout options 0
           [deferred 80; deferred 160; deferred 240]);
    reflexivity.
Defined.

(** The same three requests, accepted by the encoder, end the loop at the
    second one: the clock anchor stays at start-up. *)
Lemma accepted_frames_keep_the_clock :
  let options := {| codec := "YUV420"; frames := 0; timeout := 100;
                    keypress := false; signal := false |} in
  let accepted t := {| arrivals := [];
                       msg := MsgRequestComplete
                                {| stdin_poll := NotReady; now := t;
                                   encode_ok := true |} |} in
  exists st,
    event_loop options 0 [accepted 80; accepted 160; accepted 240]
      = Returned ElapsedTimeout st
    /\ times EncodeBuffer (trace st) = 1%nat.
Proof. eexists. split; vm_compute; reflexivity. Qed.

(** *** The pulse of the output sink *)

(** The number of [OutputSignal] calls a pass through the body adds when
    it handles a completed request: one when the key is the newline, none
    otherwise, before anything else is decided. *)
Lemma loop_body_output_signal options signals c st :
  let key := fst (get_key_or_signal options (stdin_poll c)
                    (deliver_signals signals st)) in
  times OutputSignal
    (trace (step_state
              (loop_body options
                 {| arrivals := signals; msg := MsgRequestComplete c |} st)))
  = (times OutputSignal (trace st)
     + if (key =? key_newline)%Z then 1 else 0)%nat.
Proof.
  cbv zeta. rewrite loop_body_request_complete. cbv zeta.
  destruct (get_key_or_signal_fields options (stdin_poll c)
              (deliver_signals signals st)) as (_ & _ & Ht).
  cbv zeta in Ht.
  assert (times OutputSignal (trace (deliver_signals signals st))
          = times OutputSignal (trace st)) as Hdel.
  { apply deliver_signals_times. discriminate. }
  set (key := fst _) in *. set (st2 := snd _) in *.
  set (st3 := if key =? key_newline then emit [OutputSignal] st2 else st2).
  assert (times OutputSignal (trace st3)
          = (times OutputSignal (trace st)
             + if (key =? key_newline)%Z then 1 else 0)%nat) as H3.
  { unfold st3. destruct (key =? key_newline).
    - rewrite trace_emit, times_app, Ht, Hdel. reflexivity.
    - rewrite Ht, Hdel. lia. }
  set (st4 := emit [LOG 2 (ViewfinderFrame (count st3))] st3).
  assert (times OutputSignal (trace st4) = times OutputSignal (trace st3))
    as H4.
  { unfold st4. rewrite trace_emit, times_app.
    change (times OutputSignal [LOG 2 (ViewfinderFrame (count st3))])
      with 0%nat. lia. }
  rewrite <- H3, <- H4.
  destruct (_ || _ || _ || _); cbn [step_state].
  - rewrite trace_emit, times_app.
    change (times OutputSignal [StopCamera; StopEncoder]) with 0%nat.
    destruct (_ && _ && _); [|lia].
    rewrite trace_emit, times_app.
    change (times OutputSignal [LOG 1 _]) with 0%nat. lia.
  - rewrite trace_emit, times_app.
    change (times OutputSignal [ShowPreview]) with 0%nat.
    destruct (encode_ok c); cbn [trace set_count set_start_time];
      rewrite trace_emit, times_app;
      change (times OutputSignal [EncodeBuffer]) with 0%nat; lia.
Qed.

(** X18.  With signal mode on, a [SIGUSR1] pending at a completed request
    pulses the output sink exactly once in that iteration, whatever the
    iteration goes on to do, and the signal is consumed: it is no longer
    pending afterwards. *)
Theorem sigusr1_pulses_once (options : VideoOptions) (signals : list Z)
    (c : Capture) (st : RunState) :
  signal options = true ->
  signal_received (deliver_signals signals st) = SIGUSR1 ->
  let st' := step_state
               (loop_body options
                  {| arrivals := signals; msg := MsgRequestComplete c |} st) in
  times OutputSignal (trace st') = S (times OutputSignal (trace st))
  /\ signal_received st' = 0.
Proof.
  intros Hmode Hsig. cbv zeta. split.
  - rewrite loop_body_output_signal. cbv zeta.
    rewrite get_key_or_signal_no_interrupt, Hmode, Hsig
      by (rewrite Hsig; discriminate).
    cbv zeta. change (SIGUSR1 =? SIGUSR1) with true. cbv iota.
    change (key_newline =? key_newline) with true. cbv iota. lia.
  - rewrite loop_body_request_complete. cbv zeta.
    assert (signal_received
              (snd (get_key_or_signal options (stdin_poll c)
                      (deliver_signals signals st))) = 0) as H0.
    { unfold get_key_or_signal. rewrite Hsig, Hmode. reflexivity. }
    set (st2 := snd _) in *.
    destruct (_ || _ || _ || _); destruct (_ =? key_newline);
      cbn [step_state];
      try destruct (_ && _ && _); try destruct (encode_ok c);
      cbn; exact H0.
Qed.

Lemma sigusr1_pulses_once_witness :
  let options := {| codec := "YUV420"; frames := 0; timeout := 0;
                    keypress := false; signal := true |} in
  let c := {| stdin_poll := NotReady; now := 40; encode_ok := true |} in
  let st' := step_state
               (loop_body options
                  {| arrivals := [10]; msg := MsgRequestComplete c |}
                  (startup options 0)) in
  times OutputSignal (trace st') = 1%nat /\ signal_received st' = 0.
Proof.
  intros options c.
  apply (sigusr1_pulses_once options [10] c (startup options 0));
    reflexivity.
Defined.

(** *** Messages after the end *)


(* ===================================================================== *)
(** ** Properties of start-up *)
(* ===================================================================== *)

(** *** One lookup *)

Lemma of_try_int cfg key d :
  of_try (_getValue_int cfg key d) =
    if usable cfg (key, IntKey)
    then Done match cfg !! key with Some (TypeInt v) => v | _ => d end
    else Raised (ConfigException (SettingTypeException key)).
Proof.
  unfold _getValue_int, cfg_lookup, usable. cbn [fst snd].
  destruct (cfg !! key) as [[ | | | | ]|]; reflexivity.
Qed.

Lemma of_try_float cfg key d :
  of_try (_getValue_float cfg key d) =
    if usable cfg (key, FloatKey)
    then Done match cfg !! key with
              | Some (TypeFloat v) => narrow_to_float v
              | _ => d
              end
    else Raised (ConfigException (SettingTypeException key)).
Proof.
  unfold _getValue_float, cfg_lookup, usable. cbn [fst snd].
  destruct (cfg !! key) as [[ | | | | ]|]; reflexivity.
Qed.

Lemma of_try_string cfg key d :
  of_try (_getValue_string cfg key d) =
    if usable cfg (key, StringKey)
    then Done match cfg !! key with Some (TypeString v) => v | _ => d end
    else Raised (ConfigException (SettingTypeException key)).
Proof.
  unfold _getValue_string, cfg_lookup, usable. cbn [fst snd].
  destruct (cfg !! key) as [[ | | | | ]|]; reflexivity.
Qed.

Lemma of_try_brightness cfg :
  of_try (brightness_option cfg) =
    if usable cfg ("brightness", IntKey)
    then Done (Z.quot match cfg !! "brightness" with
                      | Some (TypeInt v) => v
                      | _ => 50
                      end 50 - 1)
    else Raised (ConfigException (SettingTypeException "brightness")).
Proof.
  unfold brightness_option, _getValue_int, cfg_lookup, usable. cbn [fst snd].
  destruct (cfg !! "brightness") as [[ | | | | ]|]; reflexivity.
Qed.

(** *** The rotation *)

(** [transformFromRotation] accepts exactly the multiples of 90. *)
Lemma transformFromRotation_ok angle :
  snd (transformFromRotation angle) = (Z.rem angle 90 =? 0).
Proof.
  unfold transformFromRotation. cbv zeta.
  pose proof (Z.rem_bound_abs angle 360 ltac:(lia)) as Hbound.
  pose proof (Z.quot_rem' angle 360) as Hsplit.
  set (r := Z.rem angle 360) in *. set (q := Z.quot angle 360) in *.
  assert (Z.rem angle 90 = 0 <-> exists k, r = 90 * k) as Hdiv.
  { rewrite Z.rem_divide by lia. split.
    - intros [k Hk]. exists (k - 4 * q). lia.
    - intros [k Hk]. exists (k + 4 * q). lia. }
  destruct (Z.eqb_spec (Z.rem angle 90) 0) as [H0|H0].
  - apply Hdiv in H0. destruct H0 as [k Hk].
    assert (-4 < k < 4) by lia.
    assert (k = -3 \/ k = -2 \/ k = -1 \/ k = 0 \/ k = 1 \/ k = 2 \/ k = 3)
      as Hcases by lia.
    destruct Hcases as [-> | [-> | [-> | [-> | [-> | [-> | ->]]]]]];
      rewrite Hk; reflexivity.
  - destruct (r <? 0) eqn:Hneg.
    + destruct (Z.eqb_spec (r + 360) 0);
        [exfalso; apply H0, Hdiv; exists (-4); lia|].
      destruct (Z.eqb_spec (r + 360) 90);
        [exfalso; apply H0, Hdiv; exists (-3); lia|].
      destruct (Z.eqb_spec (r + 360) 180);
        [exfalso; apply H0, Hdiv; exists (-2); lia|].
      destruct (Z.eqb_spec (r + 360) 270);
        [exfalso; apply H0, Hdiv; exists (-1); lia|].
      reflexivity.
    + destruct (Z.eqb_spec r 0);
        [exfalso; apply H0, Hdiv; exists 0; lia|].
      destruct (Z.eqb_spec r 90);
        [exfalso; apply H0, Hdiv; exists 1; lia|].
      destruct (Z.eqb_spec r 180);
        [exfalso; apply H0, Hdiv; exists 2; lia|].
      destruct (Z.eqb_spec r 270);
        [exfalso; apply H0, Hdiv; exists 3; lia|].
      reflexivity.
Qed.

(** [mirrored_rotation], by what the store holds for its two keys. *)
Lemma mirrored_rotation_cases cfg :
  if usable cfg ("mirror", StringKey) then
    if usable cfg ("rotation", IntKey) then
      if rotation_legal cfg
      then exists t, mirrored_rotation cfg = Done t
      else mirrored_rotation cfg
           = Raised (RuntimeError "illegal rotation value")
    else mirrored_rotation cfg
         = Raised (ConfigException (SettingTypeException "rotation"))
  else mirrored_rotation cfg
       = Raised (ConfigException (SettingTypeException "mirror")).
Proof.
  unfold mirrored_rotation. rewrite of_try_string.
  destruct (usable cfg ("mirror", StringKey)); [|reflexivity].
  cbn [outcome_bind]. cbv zeta. rewrite of_try_int.
  destruct (usable cfg ("rotation", IntKey)) eqn:Husable; [|reflexivity].
  cbn [outcome_bind].
  set (angle := match cfg !! "rotation" with
                | Some (TypeInt v) => v
                | _ => 0
                end).
  assert (rotation_legal cfg = (Z.rem angle 90 =? 0)) as ->.
  { unfold rotation_legal, angle, usable in *. cbn [fst snd] in Husable.
    destruct (cfg !! "rotation") as [[ | | | | ]|];
      try discriminate Husable; reflexivity. }
  rewrite <- transformFromRotation_ok.
  destruct (transformFromRotation angle) as [rotation [|]]; cbn [snd negb];
    [eexists|]; reflexivity.
Qed.

(** *** Resolving the settings *)

Ltac read_key lemma key :=
  rewrite lemma; destruct (usable _ key);
  cbn [find negb outcome_bind fst]; [|reflexivity].

(** The outcome of [resolve_settings], read off key by key. *)
Lemma resolve_settings_outcome (cfg : Config) :
  match first_unusable cfg with
  | Some key =>
      resolve_settings cfg
      = Raised (ConfigException (SettingTypeException key.1))
  | None =>
      if rotation_legal cfg
      then exists resolved, resolve_settings cfg = Done resolved
      else resolve_settings cfg
           = Raised (RuntimeError "illegal rotation value")
  end.
Proof.
  unfold resolve_settings, first_unusable, read_keys. cbn [find].
  read_key of_try_int ("width", IntKey).
  read_key of_try_int ("height", IntKey).
  read_key of_try_int ("framerate", IntKey).
  read_key of_try_string ("awb", StringKey).
  read_key of_try_float ("b_gain", FloatKey).
  read_key of_try_float ("r_gain", FloatKey).
  read_key of_try_int ("saturation", IntKey).
  read_key of_try_int ("sharpness", IntKey).
  read_key of_try_int ("contrast", IntKey).
  read_key of_try_brightness ("brightness", IntKey).
  read_key of_try_string ("exposuremode", StringKey).
  read_key of_try_string ("meteringmode", StringKey).
  pose proof (mirrored_rotation_cases cfg) as Hmirror.
  destruct (usable cfg ("mirror", StringKey)); cbn [find negb fst];
    [|now rewrite Hmirror].
  destruct (usable cfg ("rotation", IntKey)); cbn [find negb fst];
    [|now rewrite Hmirror].
  destruct (rotation_legal cfg); [|now rewrite Hmirror].
  destruct Hmirror as [t ->]. cbn [outcome_bind]. eexists. reflexivity.
Qed.

Lemma all_usable_first_unusable (cfg : Config) :
  forallb (usable cfg) read_keys = true <-> first_unusable cfg = None.
Proof.
  unfold first_unusable. generalize read_keys.
  induction l as [|key l IH]; cbn [forallb find]; [tauto|].
  destruct (usable cfg key); cbn [andb negb]; [exact IH|].
  split; discriminate.
Qed.

(** X20.  The settings are resolved exactly when every key the program
    reads is absent or holds a setting of the type it is read at, and the
    rotation is a multiple of 90.  Otherwise start-up ends with an
    exception: the type exception of the first key, in the order the
    program reads them, that holds a setting of another type, or, when
    there is none, the error for an illegal rotation. *)
Theorem settings_resolve_or_first_error (cfg : Config) :
  ((exists resolved, resolve_settings cfg = Done resolved)
   <-> forallb (usable cfg) read_keys = true /\ rotation_legal cfg = true)
  /\ (forall key,
        first_unusable cfg = Some key ->
        resolve_settings cfg
        = Raised (ConfigException (SettingTypeException key.1)))
  /\ (forallb (usable cfg) read_keys = true ->
      rotation_legal cfg = false ->
      resolve_settings cfg = Raised (RuntimeError "illegal rotation value")).
Proof.
  pose proof (resolve_settings_outcome cfg) as Hresolve.
  pose proof (all_usable_first_unusable cfg) as Hall.
  destruct (first_unusable cfg) as [bad|].
  - split; [|split].
    + split.
      * intros [resolved Hdone]. rewrite Hdone in Hresolve.
        discriminate Hresolve.
      * intros [Hgood _]. apply Hall in Hgood. discriminate Hgood.
    + intros key Hkey. injection Hkey as <-. exact Hresolve.
    + intros Hgood _. apply Hall in Hgood. discriminate Hgood.
  - split; [|split].
    + split.
      * intros [resolved Hdone]. split; [now apply Hall|].
        destruct (rotation_legal cfg); [reflexivity|].
        rewrite Hdone in Hresolve. discriminate Hresolve.
      * intros [_ Hlegal]. now rewrite Hlegal in Hresolve.
    + intros key Hkey. discriminate Hkey.
    + intros _ Hlegal. now rewrite Hlegal in Hresolve.
Qed.

Lemma settings_resolve_or_first_error_witness :
  resolve_settings {[ "rotation" := TypeInt 45 ]}
  = Raised (RuntimeError "illegal rotation value")
  /\ resolve_settings {[ "b_gain" := TypeInt 2 ]}
     = Raised (ConfigException (SettingTypeException "b_gain")).
Proof.
  split.
  - apply (settings_resolve_or_first_error {[ "rotation" := TypeInt 45 ]});
      reflexivity.
  - apply (settings_resolve_or_first_error {[ "b_gain" := TypeInt 2 ]})
      with (key := ("b_gain", FloatKey)).
    reflexivity.
Defined.

(** The settings resolved from an empty store. *)
Lemma resolve_settings_empty : resolve_settings ∅ = Done default_settings.
Proof. reflexivity. Qed.

(** *** [main] *)

(** X21.  A configuration file that cannot be opened or parsed does not
    end the program: [main] does not look at what [loadConfig] returns.
    It goes on exactly as with the store the failed read left (empty when
    the file could not be opened), the only difference being the line on
    [std::cerr]; with the file missing every setting takes its default. *)
Theorem load_failure_is_not_fatal (options0 : VideoOptions) (t0 : Z)
    (evs : list Event) :
  (let failed := main FileIOException options0 t0 evs in
   let empty := main (ReadOk ∅) options0 t0 evs in
   exit_code failed = exit_code empty
   /\ calls failed = calls empty
   /\ settings failed = Some default_settings
   /\ stderr failed = CouldNotOpenConfigFile :: stderr empty)
  /\ forall file line error partial,
       let failed := main (ParseException file line error partial)
                          options0 t0 evs in
       let parsed := main (ReadOk partial) options0 t0 evs in
       exit_code failed = exit_code parsed
       /\ calls failed = calls parsed
       /\ settings failed = settings parsed
       /\ stderr failed = ParseErrorAt file line error :: stderr parsed.
Proof.
  split.
  - cbv zeta. unfold main. cbn [loadConfig]. rewrite resolve_settings_empty.
    change (_getValue_string ∅ "neopixel_path" "/tmp/neopixel.state")
      with (Returns (A := string) "/tmp/neopixel.state").
    cbv iota beta.
    destruct (event_loop (set_codec "YUV420" options0) t0 evs);
      repeat split.
  - intros file line error partial. cbv zeta. unfold main. cbn [loadConfig].
    destruct (resolve_settings partial); [|repeat split].
    destruct (_getValue_string partial "neopixel_path" "/tmp/neopixel.state");
      [|repeat split].
    destruct (event_loop (set_codec "YUV420" options0) t0 evs);
      repeat split.
Qed.

(** The trace of a run of [event_loop] is never empty: the camera was
    opened. *)
Lemma event_loop_opens_camera options t0 evs :
  times OpenCamera (trace (final_state (event_loop options t0 evs))) = 1%nat.
Proof.
  unfold event_loop.
  rewrite run_loop_never_calls by (reflexivity || discriminate).
  reflexivity.
Qed.

(** X22.  [main] makes no call to the camera or the encoder exactly when
    the store holds, under a key the program reads (the path of the output
    sink included), a setting of another type than it is read at, or asks
    for a rotation that is not a multiple of 90; it then returns -1.
    Otherwise the camera is opened, whatever the messages are. *)
Theorem bad_settings_abort_before_camera (read : ReadFile)
    (options0 : VideoOptions) (t0 : Z) (evs : list Event) :
  let cfg := snd (fst (loadConfig read)) in
  let good :=
    forallb (usable cfg) read_keys && rotation_legal cfg
    && usable cfg ("neopixel_path", StringKey) in
  (good = false ->
   exit_code (main read options0 t0 evs) = Some (-1)
   /\ calls (main read options0 t0 evs) = [])
  /\ (good = true ->
      times OpenCamera (calls (main read options0 t0 evs)) = 1%nat).
Proof.
  cbv zeta. unfold main.
  destruct (loadConfig read) as [[code cfg] err]. cbn [fst snd].
  pose proof (resolve_settings_outcome cfg) as Hresolve.
  pose proof (all_usable_first_unusable cfg) as Hall.
  pose proof (of_try_string cfg "neopixel_path" "/tmp/neopixel.state")
    as Hpath.
  destruct (first_unusable cfg) as [key|].
  - assert (forallb (usable cfg) read_keys = false) as ->.
    { destruct (forallb (usable cfg) read_keys); [|reflexivity].
      pose proof (proj1 Hall eq_refl) as Hnone. discriminate Hnone. }
    rewrite Hresolve. cbn [andb]. split; [now split | discriminate].
  - rewrite (proj2 Hall eq_refl). cbn [andb].
    destruct (rotation_legal cfg); cbn [andb].
    + destruct Hresolve as [resolved ->].
      destruct (usable cfg ("neopixel_path", StringKey)).
      * destruct (_getValue_string cfg "neopixel_path" "/tmp/neopixel.state");
          [|discriminate Hpath].
        split; [discriminate|]. intros _.
        pose proof (event_loop_opens_camera (set_codec "YUV420" options0)
                      t0 evs) as Hopen.
        destruct (event_loop (set_codec "YUV420" options0) t0 evs);
          exact Hopen.
      * destruct (_getValue_string cfg "neopixel_path" "/tmp/neopixel.state");
          [discriminate Hpath|].
        split; [now split | discriminate].
    + rewrite Hresolve. split; [now split | discriminate].
Qed.

Lemma bad_settings_abort_before_camera_witness :
  let read := ReadOk {[ "saturation" := TypeFloat (S754_finite false 3 (-1)) ]} in
  let options0 := {| codec := ""; frames := 0; timeout := 0;
                     keypress := false; signal := false |} in
  exit_code (main read options0 0 []) = Some (-1)
  /\ calls (main read options0 0 []) = [].
Proof.
  intros read options0.
  apply (bad_settings_abort_before_camera read options0 0 []).
  reflexivity.
Defined.

(** X23.  Whatever the configuration, the options the framework starts
    with and the messages, a run of [main] never configures the video
    pipeline with the JPEG colourspace flag: the codec it sets is
    ["YUV420"], which is neither of the two codec names
    [get_colourspace_flags] tests for. *)
Theorem main_never_uses_jpeg_colourspace (read : ReadFile)
    (options0 : VideoOptions) (t0 : Z) (evs : list Event) :
  times (ConfigureVideo FLAG_VIDEO_JPEG_COLOURSPACE)
        (calls (main read options0 t0 evs)) = 0%nat.
Proof.
  unfold main. destruct (loadConfig read) as [[code cfg] err].
  destruct (resolve_settings cfg); [|reflexivity].
  destruct (_getValue_string cfg "neopixel_path" "/tmp/neopixel.state");
    [|reflexivity].
  assert (times (ConfigureVideo FLAG_VIDEO_JPEG_COLOURSPACE)
            (trace (final_state
                      (event_loop (set_codec "YUV420" options0) t0 evs)))
          = 0%nat) as Hnone.
  { unfold event_loop.
    rewrite run_loop_never_calls by (reflexivity || discriminate).
    reflexivity. }
  destruct (event_loop (set_codec "YUV420" options0) t0 evs); exact Hnone.
Qed.

(** X24.  A mirror setting that is a string other than ["horizontal"],
    ["vertical"] and ["both"] is not an error: the transform is the one
    obtained with no mirror setting at all. *)
Theorem unknown_mirror_is_no_mirror (cfg : Config) (value : string) :
  value <> "horizontal" -> value <> "vertical" -> value <> "both" ->
  mirrored_rotation (<["mirror" := TypeString value]> cfg)
  = mirrored_rotation (delete "mirror" cfg).
Proof.
  intros H1 H2 H3. unfold mirrored_rotation, _getValue_string, _getValue_int,
    cfg_lookup.
  rewrite lookup_insert_eq, lookup_delete_eq.
  rewrite lookup_insert_ne, lookup_delete_ne by discriminate.
  cbn [try_bind to_string catch_not_found of_try outcome_bind]. cbv zeta.
  rewrite !bool_decide_eq_false_2 by assumption.
  reflexivity.
Qed.

Lemma unknown_mirror_is_no_mirror_witness :
  mirrored_rotation (<["mirror" := TypeString "Horizontal"]> ∅)
  = mirrored_rotation (delete "mirror" ∅).
Proof.
  apply (unknown_mirror_is_no_mirror ∅ "Horizontal"); discriminate.
Defined.
